(** * SalinLive: the conversation state machine of [App.tsx]

    A shallow embedding of the session callbacks of the [App] component
    (playback scheduler, transcript and mood aggregator, teardown) and of the
    PCM codec it calls.

    The repository holds two copies of the component: [src/App.tsx] and
    [src/unnamed/part_000].  They share their structure and differ in a few
    statements; the embedding is one set of definitions indexed by
    [Revision], with a [match] at every place where the two copies differ. *)

From Stdlib Require Import List ZArith NArith QArith Qabs Lia Lqa Bool String Ascii
  Sorted.
Import ListNotations.

Close Scope Q_scope.

(* ===================================================================== *)
(** ** JavaScript strings                                                 *)
(* ===================================================================== *)

(** A JavaScript string is a sequence of UTF-16 code units. *)
Definition jsstring := list N.

Definition js (s : string) : jsstring :=
  map N_of_ascii (list_ascii_of_string s).

(** [startsWith p s]: [p] is a prefix of [s]. *)
Fixpoint startsWith (p s : jsstring) : bool :=
  match p, s with
  | [], _ => true
  | x :: p', y :: s' => N.eqb x y && startsWith p' s'
  | _ :: _, [] => false
  end.

(** [String.prototype.includes]. *)
Fixpoint includes (s p : jsstring) : bool :=
  startsWith p s ||
  match s with
  | [] => false
  | _ :: s' => includes s' p
  end.

(** [text.replace(pat, '')] with a string pattern: the first occurrence of
    [pat] is removed, and a text without [pat] is returned as it is. *)
Fixpoint replace_first (text pat : jsstring) : jsstring :=
  if startsWith pat text then skipn (List.length pat) text
  else match text with
       | [] => []
       | c :: rest => c :: replace_first rest pat
       end.

(** ECMAScript [WhiteSpace] and [LineTerminator] code units, the characters
    [String.prototype.trim] removes. *)
Definition is_ws (c : N) : bool :=
  ((9 <=? c) && (c <=? 13) || (c =? 32) || (c =? 160) || (c =? 5760)
   || (8192 <=? c) && (c <=? 8202) || (c =? 8232) || (c =? 8233)
   || (c =? 8239) || (c =? 8287) || (c =? 12288) || (c =? 65279))%N.

Fixpoint trimStart (s : jsstring) : jsstring :=
  match s with
  | [] => []
  | c :: s' => if is_ws c then trimStart s' else s
  end.

Definition trimEnd (s : jsstring) : jsstring := rev (trimStart (rev s)).

(** [String.prototype.trim]. *)
Definition trim (s : jsstring) : jsstring := trimEnd (trimStart s).

(** Lower-casing restricted to the ASCII letters; it agrees with
    [String.prototype.toLowerCase] on ASCII text. *)
Definition ascii_toLowerCase (s : jsstring) : jsstring :=
  map (fun c => if ((65 <=? c) && (c <=? 90))%N then (c + 32)%N else c) s.

(* ===================================================================== *)
(** ** [types.ts]: enumerations and transcript entries                    *)
(* ===================================================================== *)

(** [types.ts] is imported by the component and is not among the sources;
    the members of [AppState] and [Mood] and the fields of
    [TranscriptEntry] are those the component and the two views use. *)

Inductive AppState :=
  IDLE | CONNECTING | LISTENING | SPEAKING | STANDBY | SLEEP | ERROR.

Inductive Mood := HAPPY | SAD | SURPRISED | ANGRY | THINKING | NEUTRAL.

Inductive Role := user | model.

Record TranscriptEntry := {
  role : Role;
  text : jsstring;
  timestamp : Z
}.

Definition is_SLEEP (a : AppState) : bool :=
  match a with SLEEP => true | _ => false end.

Definition is_model (r : Role) : bool :=
  match r with model => true | user => false end.

(** The name of a mood as it is written between the brackets of a tag. *)
Definition mood_name (m : Mood) : jsstring :=
  match m with
  | HAPPY => js "HAPPY"
  | SAD => js "SAD"
  | SURPRISED => js "SURPRISED"
  | ANGRY => js "ANGRY"
  | THINKING => js "THINKING"
  | NEUTRAL => js "NEUTRAL"
  end.

Definition mood_tag (m : Mood) : jsstring := js "[" ++ mood_name m ++ js "]".

(** The alternatives of the regular expression, in the order it lists them. *)
Definition moods : list Mood := [HAPPY; SAD; SURPRISED; ANGRY; THINKING; NEUTRAL].

(** The tag that starts at the head of [text], if any. *)
Definition tag_at (text : jsstring) : option Mood :=
  find (fun m => startsWith (mood_tag m) text) moods.

(** [text.match(/\[(HAPPY|SAD|SURPRISED|ANGRY|THINKING|NEUTRAL)\]/)]: the
    leftmost match; the result is [moodMatch[1]], and [moodMatch[0]] is its
    [mood_tag]. *)
Fixpoint moodMatch (text : jsstring) : option Mood :=
  match tag_at text with
  | Some m => Some m
  | None => match text with
            | [] => None
            | _ :: rest => moodMatch rest
            end
  end.

(** [Transcript.tsx]: [entries.filter(entry => entry.role === 'model')]. *)
Definition translations (entries : list TranscriptEntry) : list TranscriptEntry :=
  filter (fun entry => is_model (role entry)) entries.

(* ===================================================================== *)
(** ** The views: [Transcript.tsx], [Orb.tsx] and the buttons             *)
(* ===================================================================== *)

(** [Transcript.tsx]: the React keys of the rendered entries,
    [key={entry.timestamp + idx}] over [translations.map((entry, idx) => ...)],
    from index [idx] on. *)
Fixpoint keys_from (idx : Z) (l : list TranscriptEntry) : list Z :=
  match l with
  | [] => []
  | entry :: rest => (timestamp entry + idx)%Z :: keys_from (idx + 1)%Z rest
  end.

Definition transcript_keys (entries : list TranscriptEntry) : list Z :=
  keys_from 0%Z (translations entries).

(** [Transcript.tsx]: [translations.length === 0], the test that shows
    "Awaiting translation..." in place of the list. *)
Definition shows_placeholder (entries : list TranscriptEntry) : bool :=
  Nat.eqb (List.length (translations entries)) 0.

(** [Orb.tsx]: [getColors], the gradient classes of the orb. *)
Definition getColors (state : AppState) (mood : Mood) : string :=
  match state with
  | ERROR => "from-red-800 to-red-950 shadow-red-900/50"
  | CONNECTING => "from-yellow-400 to-orange-500"
  | SLEEP => "from-slate-800 to-slate-900"
  | _ =>
      match mood with
      | HAPPY => "from-amber-400 via-yellow-500 to-orange-500 shadow-yellow-500/60"
      | SAD => "from-blue-600 via-indigo-700 to-slate-800 shadow-blue-900/40"
      | SURPRISED => "from-cyan-400 via-blue-400 to-purple-500 shadow-cyan-400/60"
      | ANGRY => "from-rose-600 via-red-700 to-black shadow-rose-900/70"
      | THINKING => "from-purple-500 via-indigo-600 to-slate-900 shadow-purple-900/50"
      | NEUTRAL =>
          match state with
          | LISTENING => "from-cyan-400 via-blue-500 to-indigo-600 shadow-cyan-500/70"
          | _ => "from-indigo-600 to-purple-800 shadow-indigo-500/40"
          end
      end
  end.

(** [Orb.tsx]: what [renderFace] computes before it draws. *)
Record Face := {
  browL : string;
  browR : string;
  mouthPath : string;
  pupilSize : Q;
  showBlush : bool
}.

(** The initial values of [renderFace]. *)
Definition default_face : Face :=
  {| browL := "M25 35 Q35 30 45 35"; browR := "M55 35 Q65 30 75 35";
     mouthPath := "M40 75 Q50 80 60 75"; pupilSize := 4; showBlush := false |}.

(** The [switch (mood)] of [renderFace]. *)
Definition mood_face (mood : Mood) : Face :=
  match mood with
  | HAPPY =>
      {| browL := "M25 32 Q35 25 45 32"; browR := "M55 32 Q65 25 75 32";
         mouthPath := "M30 72 Q50 90 70 72"; pupilSize := 5;
         showBlush := true |}
  | SAD =>
      {| browL := "M25 35 Q35 40 45 38"; browR := "M55 38 Q65 40 75 35";
         mouthPath := "M40 85 Q50 78 60 85"; pupilSize := 3;
         showBlush := showBlush default_face |}
  | SURPRISED =>
      {| browL := "M25 25 Q35 20 45 25"; browR := "M55 25 Q65 20 75 25";
         mouthPath := "M42 80 A8 8 0 1 0 58 80 A8 8 0 1 0 42 80";
         pupilSize := 6; showBlush := showBlush default_face |}
  | ANGRY =>
      {| browL := "M25 40 Q35 45 45 35"; browR := "M55 35 Q65 45 75 40";
         mouthPath := "M35 85 Q50 75 65 85"; pupilSize := 4;
         showBlush := showBlush default_face |}
  | THINKING =>
      {| browL := "M25 30 Q35 28 45 30"; browR := "M55 40 Q65 42 75 40";
         mouthPath := "M45 80 Q50 80 55 80"; pupilSize := 4;
         showBlush := showBlush default_face |}
  | NEUTRAL => default_face
  end.

(** [renderFace]: the mood's face, then the overrides of the state. *)
Definition renderFace (state : AppState) (mood : Mood) : Face :=
  let face := mood_face mood in
  match state with
  | SLEEP =>
      {| browL := "M25 40 Q35 42 45 40"; browR := "M55 40 Q65 42 75 40";
         mouthPath := "M45 78 Q50 80 55 78"; pupilSize := 0;
         showBlush := showBlush face |}
  | LISTENING =>
      {| browL := browL face; browR := browR face;
         mouthPath := mouthPath face; pupilSize := 11 # 2;
         showBlush := showBlush face |}
  | _ => face
  end.

(** [renderFace]: [!blink && state !== AppState.SLEEP], the test under which
    the pupils are drawn. *)
Definition pupils_drawn (blink : bool) (state : AppState) : bool :=
  negb blink && negb (is_SLEEP state).

(* ===================================================================== *)
(** ** [services/audioUtils]: the PCM codec                               *)
(* ===================================================================== *)

(** Modelled from the spec: [services/audioUtils.ts] ([createPcmBlob],
    [decode], [decodeAudioData]) is imported by the component but is not
    among the sources.  The specification has the encoder scale each sample
    to a 16-bit signed little-endian integer, clamped to the representable
    range, and the decoder divide the integer by 32768.  Samples are
    rationals: scaling by 32768 and dividing by it are exact on binary
    floating-point numbers.  The scale is the decoder's divisor and the
    conversion to an integer drops the fraction. *)
Definition clamp16 (i : Z) : Z := Z.max (-32768) (Z.min 32767 i).

(** Modelled from the spec: conversion of a scaled sample to an integer. *)
Definition truncate (x : Q) : Z := Z.quot (Qnum x) (Zpos (Qden x)).

(** Modelled from the spec: one sample, scaled and clamped. *)
Definition encode_sample (x : Q) : Z := clamp16 (truncate (x * 32768)%Q).

(** Modelled from the spec: the two bytes of a 16-bit integer in two's
    complement, low byte first. *)
Definition int16_to_bytes (i : Z) : list Z :=
  [(i mod 256)%Z; ((i / 256) mod 256)%Z].

(** Modelled from the spec: the signed 16-bit integer of two bytes. *)
Definition int16_of_bytes (lo hi : Z) : Z :=
  let u := (lo + 256 * hi)%Z in
  if (u <? 32768)%Z then u else (u - 65536)%Z.

(** Modelled from the spec: [sample / 32768.0]. *)
Definition decode_sample (lo hi : Z) : Q :=
  (inject_Z (int16_of_bytes lo hi) / 32768)%Q.

(** Modelled from the spec: the byte sequence of a frame of samples. *)
Definition encode (samples : list Q) : list Z :=
  flat_map (fun x => int16_to_bytes (encode_sample x)) samples.

(** Modelled from the spec: the samples of a byte sequence. *)
Fixpoint decode (bytes : list Z) : list Q :=
  match bytes with
  | lo :: hi :: rest => decode_sample lo hi :: decode rest
  | _ => []
  end.

(** *** Playback devices used in the examples *)

(** A device on which [stop()] never raises. *)
Definition quiet : nat -> bool := fun _ => false.

(** A device on which [stop()] raises on node [n] (it has already finished)
    and on no other. *)
Definition raises_on (n : nat) : nat -> bool := Nat.eqb n.

(* ===================================================================== *)
(** ** Time                                                               *)
(* ===================================================================== *)

(** The playback clock ([ctx.currentTime]), buffer durations and the cursor
    [nextStartTimeRef] are JavaScript numbers.  The scheduler compares them,
    takes [Math.max] and adds a duration; the development is stated over any
    carrier on which these operations obey the laws below. *)
Class Time (T : Type) := {
  tzero : T;
  tle : T -> T -> Prop;
  tmax : T -> T -> T;
  tadd : T -> T -> T;
  tle_refl : forall a, tle a a;
  tle_trans : forall a b c, tle a b -> tle b c -> tle a c;
  tmax_ub_l : forall a b, tle a (tmax a b);
  tmax_ub_r : forall a b, tle b (tmax a b);
  tmax_absorb : forall a b, tle b a -> tmax a b = a;
  tadd_nonneg : forall a d, tle tzero d -> tle a (tadd a d)
}.

(** Times counted in whole units (audio frames of the output context). *)
#[export] Instance Z_Time : Time Z := {|
  tzero := 0%Z;
  tle := Z.le;
  tmax := Z.max;
  tadd := Z.add;
  tle_refl := Z.le_refl;
  tle_trans := Z.le_trans;
  tmax_ub_l := Z.le_max_l;
  tmax_ub_r := Z.le_max_r;
  tmax_absorb := Z.max_l;
  tadd_nonneg := fun a d H => ltac:(lia)
|}.

(* ===================================================================== *)
(** ** The component                                                      *)
(* ===================================================================== *)

(** The two copies of the component. *)
Inductive Revision :=
| AppTsx    (* src/App.tsx *)
| Part000.  (* src/unnamed/part_000 *)

(** The callbacks handed to [setTimeout]. *)
Inductive TimerCallback :=
| ForcedSleepStop     (* () => stopConversation(true) *)
| WakeToIdle          (* () => { setState(IDLE); setMood(NEUTRAL); } *)
| ReturnToListening.  (* the debounce of the 'ended' listener *)

(** A pending timer: the delay in milliseconds and the callback. *)
Definition Timer : Type := Z * TimerCallback.

(** What a handler leaves behind: it returns, or an exception escapes it.
    Either way the mutations made so far stay in place. *)
Inductive Outcome (A : Type) :=
| Returned (a : A)
| Thrown (a : A).
Arguments Returned {A} a.
Arguments Thrown {A} a.

Definition after {A : Type} (o : Outcome A) : A :=
  match o with Returned a => a | Thrown a => a end.

Definition returns {A : Type} (o : Outcome A) : bool :=
  match o with Returned _ => true | Thrown _ => false end.

(** The failures caught by [startConversation]. *)
Inductive StartError :=
| NotAllowedError (message : string)
| OtherError (message : string).

Section Component.

Context {T : Type} {TM : Time T}.

(** [String.prototype.toLowerCase] of the host. *)
Variable toLowerCase : jsstring -> jsstring.

(** The playback device: whether [stop()] raises on the node with this
    identifier (an engine that rejects stopping a node that has already
    finished or was already stopped). *)
Variable stop_raises : nat -> bool.

(** An [AudioBufferSourceNode] that [start] was called on. *)
Record Source := {
  sid : nat;          (* identity of the node *)
  scheduledStart : T; (* the argument of source.start *)
  duration : T        (* buffer.duration *)
}.

(** [serverContent.modelTurn], as far as [onmessage] reads it: a turn
    without a [parts] array, or one with it; [data] is
    [parts[0]?.inlineData?.data], absent when the array is empty or its first
    part holds no inline data, and otherwise given by the duration of the
    buffer the payload decodes to (the decoder is in [services/audioUtils],
    which is not among the sources). *)
Inductive ModelTurn :=
| WithoutParts
| WithParts (data : option T).

(** A [LiveServerMessage], reduced to the fields [onmessage] reads; a
    message without [serverContent] has none of them.  A transcription is
    an object whose [text] may be missing: [Some None] is the object without
    text. *)
Record ServerMessage := {
  outputTranscription : option (option jsstring);
  inputTranscription : option (option jsstring);
  turnComplete : bool;
  modelTurn : option ModelTurn;
  interrupted : bool
}.

(** [const audioData = ...modelTurn?.parts?.[0]?.inlineData?.data]: its
    value, when evaluating it does not throw. *)
Definition audioData (m : ServerMessage) : option T :=
  match modelTurn m with
  | Some (WithParts data) => data
  | _ => None
  end.

(** [part_000] reads [modelTurn?.parts[0]]: on a turn without [parts] the
    first statement of [onmessage] throws a [TypeError].  [App.tsx] reads
    [parts?.[0]]. *)
Definition audioData_throws (r : Revision) (m : ServerMessage) : bool :=
  match r, modelTurn m with
  | Part000, Some WithoutParts => true
  | _, _ => false
  end.

(** The rest of [onmessage] after [await decodeAudioData(...)]: the decoded
    buffer and the [interrupted] flag of the message it closes over. *)
Record Continuation := {
  buffer_duration : T;
  message_interrupted : bool
}.

(** React state, refs, and the part of the environment the handlers act on.
    [closureState] is the constant [state] that the session callbacks closed
    over: [startConversation] is defined anew on every render, and the
    callbacks it creates see the [state] of the render it was called from.
    [standbyClosureState] is the same for [enableWakeWord]. *)
Record Store := {
  state : AppState;
  mood : Mood;
  transcripts : list TranscriptEntry;
  errorMessage : option string;
  sessionRef : bool;
  audioContextRef : bool;
  outputAudioContextRef : bool;
  sourcesRef : list Source;            (* a Set, in insertion order *)
  nextStartTimeRef : T;
  currentInputTranscription : jsstring;
  currentOutputTranscription : jsstring;
  closureState : AppState;
  standbyClosureState : AppState;
  timers : list Timer;                 (* pending setTimeout calls *)
  awaiting : list Continuation;        (* handlers suspended at the await *)
  stopCalls : list nat;                (* nodes stop() was called on *)
  nextSourceId : nat;
  startCalls : list Source             (* nodes start() was called on *)
}.

(** The component as it mounts. *)
Definition initial : Store :=
  {| state := IDLE; mood := NEUTRAL; transcripts := []; errorMessage := None;
     sessionRef := false; audioContextRef := false;
     outputAudioContextRef := false; sourcesRef := [];
     nextStartTimeRef := tzero; currentInputTranscription := [];
     currentOutputTranscription := []; closureState := IDLE;
     standbyClosureState := IDLE; timers := []; awaiting := [];
     stopCalls := []; nextSourceId := 0; startCalls := [] |}.

Definition setState (x : AppState) (s : Store) : Store :=
  {| state := x; mood := mood s; transcripts := transcripts s; errorMessage
     := errorMessage s; sessionRef := sessionRef s; audioContextRef :=
     audioContextRef s; outputAudioContextRef := outputAudioContextRef s;
     sourcesRef := sourcesRef s; nextStartTimeRef := nextStartTimeRef s;
     currentInputTranscription := currentInputTranscription s;
     currentOutputTranscription := currentOutputTranscription s; closureState
     := closureState s; standbyClosureState := standbyClosureState s; timers :=
     timers s; awaiting := awaiting s; stopCalls := stopCalls s; nextSourceId := nextSourceId s;
     startCalls := startCalls s |}.

Definition setMood (x : Mood) (s : Store) : Store :=
  {| state := state s; mood := x; transcripts := transcripts s; errorMessage
     := errorMessage s; sessionRef := sessionRef s; audioContextRef :=
     audioContextRef s; outputAudioContextRef := outputAudioContextRef s;
     sourcesRef := sourcesRef s; nextStartTimeRef := nextStartTimeRef s;
     currentInputTranscription := currentInputTranscription s;
     currentOutputTranscription := currentOutputTranscription s; closureState
     := closureState s; standbyClosureState := standbyClosureState s; timers :=
     timers s; awaiting := awaiting s; stopCalls := stopCalls s; nextSourceId := nextSourceId s;
     startCalls := startCalls s |}.

Definition setTranscripts (x : list TranscriptEntry) (s : Store) : Store :=
  {| state := state s; mood := mood s; transcripts := x; errorMessage :=
     errorMessage s; sessionRef := sessionRef s; audioContextRef :=
     audioContextRef s; outputAudioContextRef := outputAudioContextRef s;
     sourcesRef := sourcesRef s; nextStartTimeRef := nextStartTimeRef s;
     currentInputTranscription := currentInputTranscription s;
     currentOutputTranscription := currentOutputTranscription s; closureState
     := closureState s; standbyClosureState := standbyClosureState s; timers :=
     timers s; awaiting := awaiting s; stopCalls := stopCalls s; nextSourceId := nextSourceId s;
     startCalls := startCalls s |}.

Definition setErrorMessage (x : option string) (s : Store) : Store :=
  {| state := state s; mood := mood s; transcripts := transcripts s;
     errorMessage := x; sessionRef := sessionRef s; audioContextRef :=
     audioContextRef s; outputAudioContextRef := outputAudioContextRef s;
     sourcesRef := sourcesRef s; nextStartTimeRef := nextStartTimeRef s;
     currentInputTranscription := currentInputTranscription s;
     currentOutputTranscription := currentOutputTranscription s; closureState
     := closureState s; standbyClosureState := standbyClosureState s; timers :=
     timers s; awaiting := awaiting s; stopCalls := stopCalls s; nextSourceId := nextSourceId s;
     startCalls := startCalls s |}.

Definition set_sessionRef (x : bool) (s : Store) : Store :=
  {| state := state s; mood := mood s; transcripts := transcripts s;
     errorMessage := errorMessage s; sessionRef := x; audioContextRef :=
     audioContextRef s; outputAudioContextRef := outputAudioContextRef s;
     sourcesRef := sourcesRef s; nextStartTimeRef := nextStartTimeRef s;
     currentInputTranscription := currentInputTranscription s;
     currentOutputTranscription := currentOutputTranscription s; closureState
     := closureState s; standbyClosureState := standbyClosureState s; timers :=
     timers s; awaiting := awaiting s; stopCalls := stopCalls s; nextSourceId := nextSourceId s;
     startCalls := startCalls s |}.

Definition set_audioContextRef (x : bool) (s : Store) : Store :=
  {| state := state s; mood := mood s; transcripts := transcripts s;
     errorMessage := errorMessage s; sessionRef := sessionRef s;
     audioContextRef := x; outputAudioContextRef := outputAudioContextRef s;
     sourcesRef := sourcesRef s; nextStartTimeRef := nextStartTimeRef s;
     currentInputTranscription := currentInputTranscription s;
     currentOutputTranscription := currentOutputTranscription s; closureState
     := closureState s; standbyClosureState := standbyClosureState s; timers :=
     timers s; awaiting := awaiting s; stopCalls := stopCalls s; nextSourceId := nextSourceId s;
     startCalls := startCalls s |}.

Definition set_outputAudioContextRef (x : bool) (s : Store) : Store :=
  {| state := state s; mood := mood s; transcripts := transcripts s;
     errorMessage := errorMessage s; sessionRef := sessionRef s;
     audioContextRef := audioContextRef s; outputAudioContextRef := x;
     sourcesRef := sourcesRef s; nextStartTimeRef := nextStartTimeRef s;
     currentInputTranscription := currentInputTranscription s;
     currentOutputTranscription := currentOutputTranscription s; closureState
     := closureState s; standbyClosureState := standbyClosureState s; timers :=
     timers s; awaiting := awaiting s; stopCalls := stopCalls s; nextSourceId := nextSourceId s;
     startCalls := startCalls s |}.

Definition set_sourcesRef (x : list Source) (s : Store) : Store :=
  {| state := state s; mood := mood s; transcripts := transcripts s;
     errorMessage := errorMessage s; sessionRef := sessionRef s;
     audioContextRef := audioContextRef s; outputAudioContextRef :=
     outputAudioContextRef s; sourcesRef := x; nextStartTimeRef :=
     nextStartTimeRef s; currentInputTranscription := currentInputTranscription
     s; currentOutputTranscription := currentOutputTranscription s;
     closureState := closureState s; standbyClosureState := standbyClosureState
     s; timers := timers s; awaiting := awaiting s; stopCalls := stopCalls s;
     nextSourceId := nextSourceId s;
     startCalls := startCalls s |}.

Definition set_nextStartTimeRef (x : T) (s : Store) : Store :=
  {| state := state s; mood := mood s; transcripts := transcripts s;
     errorMessage := errorMessage s; sessionRef := sessionRef s;
     audioContextRef := audioContextRef s; outputAudioContextRef :=
     outputAudioContextRef s; sourcesRef := sourcesRef s; nextStartTimeRef :=
     x; currentInputTranscription := currentInputTranscription s;
     currentOutputTranscription := currentOutputTranscription s; closureState
     := closureState s; standbyClosureState := standbyClosureState s; timers :=
     timers s; awaiting := awaiting s; stopCalls := stopCalls s; nextSourceId := nextSourceId s;
     startCalls := startCalls s |}.

Definition set_currentInputTranscription (x : jsstring) (s : Store) : Store :=
  {| state := state s; mood := mood s; transcripts := transcripts s;
     errorMessage := errorMessage s; sessionRef := sessionRef s;
     audioContextRef := audioContextRef s; outputAudioContextRef :=
     outputAudioContextRef s; sourcesRef := sourcesRef s; nextStartTimeRef :=
     nextStartTimeRef s; currentInputTranscription := x;
     currentOutputTranscription := currentOutputTranscription s; closureState
     := closureState s; standbyClosureState := standbyClosureState s; timers :=
     timers s; awaiting := awaiting s; stopCalls := stopCalls s; nextSourceId := nextSourceId s;
     startCalls := startCalls s |}.

Definition set_currentOutputTranscription (x : jsstring) (s : Store) : Store :=
  {| state := state s; mood := mood s; transcripts := transcripts s;
     errorMessage := errorMessage s; sessionRef := sessionRef s;
     audioContextRef := audioContextRef s; outputAudioContextRef :=
     outputAudioContextRef s; sourcesRef := sourcesRef s; nextStartTimeRef :=
     nextStartTimeRef s; currentInputTranscription := currentInputTranscription
     s; currentOutputTranscription := x; closureState := closureState s;
     standbyClosureState := standbyClosureState s; timers := timers s; awaiting
     := awaiting s; stopCalls := stopCalls s; nextSourceId := nextSourceId s;
     startCalls := startCalls s |}.

Definition set_closureState (x : AppState) (s : Store) : Store :=
  {| state := state s; mood := mood s; transcripts := transcripts s;
     errorMessage := errorMessage s; sessionRef := sessionRef s;
     audioContextRef := audioContextRef s; outputAudioContextRef :=
     outputAudioContextRef s; sourcesRef := sourcesRef s; nextStartTimeRef :=
     nextStartTimeRef s; currentInputTranscription := currentInputTranscription
     s; currentOutputTranscription := currentOutputTranscription s;
     closureState := x; standbyClosureState := standbyClosureState s; timers :=
     timers s; awaiting := awaiting s; stopCalls := stopCalls s; nextSourceId := nextSourceId s;
     startCalls := startCalls s |}.

Definition set_standbyClosureState (x : AppState) (s : Store) : Store :=
  {| state := state s; mood := mood s; transcripts := transcripts s;
     errorMessage := errorMessage s; sessionRef := sessionRef s;
     audioContextRef := audioContextRef s; outputAudioContextRef :=
     outputAudioContextRef s; sourcesRef := sourcesRef s; nextStartTimeRef :=
     nextStartTimeRef s; currentInputTranscription := currentInputTranscription
     s; currentOutputTranscription := currentOutputTranscription s;
     closureState := closureState s; standbyClosureState := x; timers := timers
     s; awaiting := awaiting s; stopCalls := stopCalls s; nextSourceId := nextSourceId s;
     startCalls := startCalls s |}.

Definition set_timers (x : list Timer) (s : Store) : Store :=
  {| state := state s; mood := mood s; transcripts := transcripts s;
     errorMessage := errorMessage s; sessionRef := sessionRef s;
     audioContextRef := audioContextRef s; outputAudioContextRef :=
     outputAudioContextRef s; sourcesRef := sourcesRef s; nextStartTimeRef :=
     nextStartTimeRef s; currentInputTranscription := currentInputTranscription
     s; currentOutputTranscription := currentOutputTranscription s;
     closureState := closureState s; standbyClosureState := standbyClosureState
     s; timers := x; awaiting := awaiting s; stopCalls := stopCalls s;
     nextSourceId := nextSourceId s;
     startCalls := startCalls s |}.

Definition set_awaiting (x : list Continuation) (s : Store) : Store :=
  {| state := state s; mood := mood s; transcripts := transcripts s;
     errorMessage := errorMessage s; sessionRef := sessionRef s;
     audioContextRef := audioContextRef s; outputAudioContextRef :=
     outputAudioContextRef s; sourcesRef := sourcesRef s; nextStartTimeRef :=
     nextStartTimeRef s; currentInputTranscription := currentInputTranscription
     s; currentOutputTranscription := currentOutputTranscription s;
     closureState := closureState s; standbyClosureState := standbyClosureState
     s; timers := timers s; awaiting := x; stopCalls := stopCalls s;
     nextSourceId := nextSourceId s;
     startCalls := startCalls s |}.

Definition set_stopCalls (x : list nat) (s : Store) : Store :=
  {| state := state s; mood := mood s; transcripts := transcripts s;
     errorMessage := errorMessage s; sessionRef := sessionRef s;
     audioContextRef := audioContextRef s; outputAudioContextRef :=
     outputAudioContextRef s; sourcesRef := sourcesRef s; nextStartTimeRef :=
     nextStartTimeRef s; currentInputTranscription := currentInputTranscription
     s; currentOutputTranscription := currentOutputTranscription s;
     closureState := closureState s; standbyClosureState := standbyClosureState
     s; timers := timers s; awaiting := awaiting s; stopCalls := x;
     nextSourceId := nextSourceId s;
     startCalls := startCalls s |}.

Definition set_nextSourceId (x : nat) (s : Store) : Store :=
  {| state := state s; mood := mood s; transcripts := transcripts s;
     errorMessage := errorMessage s; sessionRef := sessionRef s;
     audioContextRef := audioContextRef s; outputAudioContextRef :=
     outputAudioContextRef s; sourcesRef := sourcesRef s; nextStartTimeRef :=
     nextStartTimeRef s; currentInputTranscription := currentInputTranscription
     s; currentOutputTranscription := currentOutputTranscription s;
     closureState := closureState s; standbyClosureState := standbyClosureState
     s; timers := timers s; awaiting := awaiting s; stopCalls := stopCalls s;
     nextSourceId := x; startCalls := startCalls s |}.

Definition set_startCalls (x : list Source) (s : Store) : Store :=
  {| state := state s; mood := mood s; transcripts := transcripts s;
     errorMessage := errorMessage s; sessionRef := sessionRef s;
     audioContextRef := audioContextRef s; outputAudioContextRef :=
     outputAudioContextRef s; sourcesRef := sourcesRef s; nextStartTimeRef :=
     nextStartTimeRef s; currentInputTranscription := currentInputTranscription
     s; currentOutputTranscription := currentOutputTranscription s;
     closureState := closureState s; standbyClosureState := standbyClosureState
     s; timers := timers s; awaiting := awaiting s; stopCalls := stopCalls s;
     nextSourceId := nextSourceId s; startCalls := x |}.

Definition setTimeout (callback : TimerCallback) (delay : Z) (s : Store) : Store :=
  set_timers (timers s ++ [(delay, callback)]) s.

(** [sourcesRef.current.delete(source)]. *)
Definition delete_source (src : Source) (l : list Source) : list Source :=
  filter (fun x => negb (Nat.eqb (sid x) (sid src))) l.

Definition is_empty {A : Type} (l : list A) : bool :=
  match l with [] => true | _ => false end.

(** [sourcesRef.current.forEach(...)] over the live set, appending to the
    log of [stop()] calls.  [App.tsx] wraps each call in [try]/[catch];
    [part_000] calls [source.stop()] bare, so an exception ends the loop. *)
Fixpoint stop_each (r : Revision) (srcs : list Source) (log : list nat)
  : Outcome (list nat) :=
  match srcs with
  | [] => Returned log
  | src :: rest =>
      let log' := log ++ [sid src] in
      if stop_raises (sid src) then
        match r with
        | AppTsx => stop_each r rest log'
        | Part000 => Thrown log'
        end
      else stop_each r rest log'
  end.

Definition stopConversation (r : Revision) (forceSleep : bool) (s : Store)
  : Outcome Store :=
  let s := set_sessionRef false s in
  let s := set_audioContextRef false s in
  let s := set_outputAudioContextRef false s in
  match stop_each r (sourcesRef s) (stopCalls s) with
  | Thrown log => Thrown (set_stopCalls log s)
  | Returned log =>
      let s := set_sourcesRef [] (set_stopCalls log s) in
      if forceSleep then
        Returned (setTimeout WakeToIdle 5000 (setState SLEEP s))
      else
        Returned (setMood NEUTRAL (setState IDLE s))
  end.

(** The output branch on a fragment that is there: the mood match, then the
    append. *)
Definition output_fragment (text : jsstring) (s : Store) : Store :=
  match moodMatch text with
  | Some md =>
      set_currentOutputTranscription
        (currentOutputTranscription s
           ++ trim (replace_first text (mood_tag md)))
        (setMood md s)
  | None =>
      set_currentOutputTranscription
        (currentOutputTranscription s ++ text) s
  end.

(** The branch on [serverContent.outputTranscription] and its [else if] on
    [serverContent.inputTranscription].  [App.tsx] guards both with
    [if (text)].  [part_000] does not: without text, [text.match] throws in
    the output branch, and in the input branch the accumulator gains the text
    of [undefined] and the state is set before [text.toLowerCase] throws. *)
Definition transcription_block (r : Revision) (m : ServerMessage) (s : Store)
  : Outcome Store :=
  match outputTranscription m with
  | Some text =>
      match r, text with
      | AppTsx, Some text =>
          if is_empty text then Returned s
          else Returned (output_fragment text s)
      | AppTsx, None => Returned s
      | Part000, Some text => Returned (output_fragment text s)
      | Part000, None => Thrown s
      end
  | None =>
      match inputTranscription m with
      | Some text =>
          match r, text with
          | AppTsx, Some text =>
              if is_empty text then Returned s
              else Returned
                     (setState LISTENING
                        (set_currentInputTranscription
                           (currentInputTranscription s ++ text) s))
          | AppTsx, None => Returned s
          | Part000, Some text =>
              let s := set_currentInputTranscription
                         (currentInputTranscription s ++ text) s in
              let s := setState LISTENING s in
              if includes (toLowerCase text) (js "salamat salin")
                 || includes (toLowerCase text) (js "thank you salin")
              then Returned (setTimeout ForcedSleepStop 3000 s)
              else Returned s
          | Part000, None =>
              let s := set_currentInputTranscription
                         (currentInputTranscription s ++ js "undefined") s in
              Thrown (setState LISTENING s)
          end
      | None => Returned s
      end
  end.

(** The branch on [serverContent.turnComplete]; [date] is [Date.now()]. *)
Definition turnComplete_block (m : ServerMessage) (date : Z) (s : Store)
  : Store :=
  if turnComplete m then
    let output := trim (currentOutputTranscription s) in
    let s :=
      if is_empty output then s
      else setTranscripts
             (transcripts s
                ++ [{| role := model; text := output; timestamp := date |}])
             s in
    let s := set_currentInputTranscription [] s in
    let s := set_currentOutputTranscription [] s in
    if is_empty (sourcesRef s) then setState LISTENING s else s
  else s.

(** The audio branch after the [await]: the node is created, started at the
    cursor, the cursor advances by the buffer's duration and the node joins
    the live set. *)
Definition schedule_source (dur : T) (s : Store) : Store :=
  let source := {| sid := nextSourceId s;
                   scheduledStart := nextStartTimeRef s;
                   duration := dur |} in
  let s := set_nextSourceId (S (nextSourceId s)) s in
  let s := set_startCalls (startCalls s ++ [source]) s in
  let s := set_nextStartTimeRef (tadd (nextStartTimeRef s) dur) s in
  set_sourcesRef (sourcesRef s ++ [source]) s.

(** The branch on [serverContent.interrupted]. *)
Definition interrupted_block (r : Revision) (flag : bool) (s : Store)
  : Outcome Store :=
  if flag then
    match stop_each r (sourcesRef s) (stopCalls s) with
    | Thrown log => Thrown (set_stopCalls log s)
    | Returned log =>
        let s := set_sourcesRef [] (set_stopCalls log s) in
        let s := set_nextStartTimeRef tzero s in
        let s := setState LISTENING s in
        match r with
        | AppTsx => Returned s
        | Part000 => Returned (setMood NEUTRAL s)
        end
    end
  else Returned s.

(** The branch on [audioData] and, unless the handler has returned or
    thrown, the branch on [serverContent.interrupted] after it; nothing else
    runs during the [await].  [now] is [ctx.currentTime]. *)
Definition audio_then_interrupted (r : Revision) (m : ServerMessage) (now : T)
  (s : Store) : Outcome Store :=
  match audioData m with
  | Some dur =>
      let s := setState SPEAKING s in
      if outputAudioContextRef s then
        let s := set_nextStartTimeRef (tmax (nextStartTimeRef s) now) s in
        (* await decodeAudioData(...) *)
        let s := schedule_source dur s in
        interrupted_block r (interrupted m) s
      else
        match r with
        | AppTsx => Returned s   (* if (!ctx) return; *)
        | Part000 => Thrown s    (* ctx is null: reading ctx.currentTime *)
        end
  | None => interrupted_block r (interrupted m) s
  end.

(** [onmessage], one complete call; [now] is [ctx.currentTime] and [date]
    is [Date.now()] at the time of the call. *)
Definition onmessage (r : Revision) (m : ServerMessage) (now : T) (date : Z)
  (s : Store) : Outcome Store :=
  if audioData_throws r m then Thrown s
  else
    match transcription_block r m s with
    | Thrown s => Thrown s
    | Returned s =>
        let s := turnComplete_block m date s in
        audio_then_interrupted r m now s
    end.

(** The branch on [audioData] up to its [await], where the handler is
    suspended and its continuation queued. *)
Definition audio_suspend (r : Revision) (m : ServerMessage) (now : T)
  (s : Store) : Outcome Store :=
  match audioData m with
  | Some dur =>
      let s := setState SPEAKING s in
      if outputAudioContextRef s then
        let s := set_nextStartTimeRef (tmax (nextStartTimeRef s) now) s in
        Returned
          (set_awaiting
             (awaiting s ++ [{| buffer_duration := dur;
                                message_interrupted := interrupted m |}]) s)
      else
        match r with
        | AppTsx => Returned s
        | Part000 => Thrown s
        end
  | None => interrupted_block r (interrupted m) s
  end.

(** [onmessage] up to its [await]. *)
Definition onmessage_begin (r : Revision) (m : ServerMessage) (now : T)
  (date : Z) (s : Store) : Outcome Store :=
  if audioData_throws r m then Thrown s
  else
    match transcription_block r m s with
    | Thrown s => Thrown s
    | Returned s =>
        let s := turnComplete_block m date s in
        audio_suspend r m now s
    end.

(** [onmessage] from its [await] on. *)
Definition onmessage_resume (r : Revision) (k : Continuation) (s : Store)
  : Outcome Store :=
  interrupted_block r (message_interrupted k)
    (schedule_source (buffer_duration k) s).

(** The ['ended'] listener of a source. *)
Definition onended (r : Revision) (source : Source) (s : Store) : Store :=
  let s := set_sourcesRef (delete_source source (sourcesRef s)) s in
  match r with
  | AppTsx =>
      if is_empty (sourcesRef s) && negb (is_SLEEP (closureState s))
      then setState LISTENING s else s
  | Part000 =>
      if is_empty (sourcesRef s) then setTimeout ReturnToListening 500 s
      else s
  end.

Definition onopen (s : Store) : Store := setState LISTENING s.

Definition onerror (r : Revision) (s : Store) : Store :=
  let message :=
    match r with
    | AppTsx => "Connection failed. Please check your API key."%string
    | Part000 => "Connection failed."%string
    end in
  setState ERROR (setErrorMessage (Some message) s).

(** [onclose]: the test reads the [state] the callbacks closed over. *)
Definition onclose (s : Store) : Store :=
  if negb (is_SLEEP (closureState s)) then setState IDLE s else s.

(** What a fired timer runs. *)
Definition run_timer (r : Revision) (cb : TimerCallback) (s : Store)
  : Outcome Store :=
  match cb with
  | ForcedSleepStop => stopConversation r true s
  | WakeToIdle => Returned (setMood NEUTRAL (setState IDLE s))
  | ReturnToListening =>
      if is_empty (sourcesRef s) && negb (is_SLEEP (closureState s))
      then Returned (setMood NEUTRAL (setState LISTENING s))
      else Returned s
  end.

(** [startConversation] up to its first [await]; [seen] is the [state] of
    the render the call comes from, [apiKey] whether [process.env.API_KEY]
    is set. *)
Definition startConversation (r : Revision) (seen : AppState) (apiKey : bool)
  (s : Store) : Store :=
  let s := setState CONNECTING s in
  let s := setErrorMessage None s in
  let proceed s :=
    set_closureState seen
      (set_outputAudioContextRef true (set_audioContextRef true s)) in
  match r with
  | AppTsx =>
      if apiKey then proceed s
      else setState ERROR
             (setErrorMessage
                (Some ("Failed to start: " ++
                       "API Key is missing in environment variables.")%string)
                s)
  | Part000 => proceed s
  end.

(** The [catch] of [startConversation]. *)
Definition startConversation_catch (r : Revision) (e : StartError) (s : Store)
  : Store :=
  let message :=
    match r with
    | AppTsx =>
        match e with
        | NotAllowedError _ =>
            "Microphone access was denied. Check site permissions."%string
        | OtherError msg =>
            ("Failed to start: " ++
             (if String.eqb msg "" then "Unknown error" else msg))%string
        end
    | Part000 => "Mic access denied."%string
    end in
  setState ERROR (setErrorMessage (Some message) s).

(** [toggleStandby], with [enableWakeWord] inlined; [supported] tells
    whether the host has a speech recogniser. *)
Definition toggleStandby (supported : bool) (s : Store) : Store :=
  match state s with
  | STANDBY => setState IDLE s
  | seen =>
      if supported then setState STANDBY (set_standbyClosureState seen s)
      else s
  end.

(** Everything that can happen to the component. *)
Inductive Event :=
| ClickStart (apiKey : bool)             (* the microphone button *)
| WakePhrase (apiKey : bool)             (* recognition.onresult, a match *)
| StartFails (e : StartError)            (* a rejection inside the try *)
| SessionReady                           (* sessionRef.current = await ... *)
| ClickStop                              (* the stop button *)
| ClickClear                             (* setTranscripts([]) *)
| ClickStandby (supported : bool)
| RecognitionError                       (* recognition.onerror *)
| Open
| Message (m : ServerMessage) (now : T) (date : Z)
| Decoded (i : nat)                      (* the i-th suspended handler resumes *)
| ChannelError
| Close
| Ended (source : Source)
| TimerFires (i : nat).                  (* the i-th pending timer fires *)

(** [remove_nth i l] drops the [i]-th element of [l]. *)
Fixpoint remove_nth {A : Type} (i : nat) (l : list A) : list A :=
  match l, i with
  | [], _ => []
  | _ :: l', O => l'
  | x :: l', S i' => x :: remove_nth i' l'
  end.

Definition step (r : Revision) (s : Store) (e : Event) : Outcome Store :=
  match e with
  | ClickStart apiKey => Returned (startConversation r (state s) apiKey s)
  | WakePhrase apiKey =>
      Returned (startConversation r (standbyClosureState s) apiKey s)
  | StartFails err => Returned (startConversation_catch r err s)
  | SessionReady => Returned (set_sessionRef true s)
  | ClickStop => stopConversation r false s
  | ClickClear => Returned (setTranscripts [] s)
  | ClickStandby supported => Returned (toggleStandby supported s)
  | RecognitionError => Returned (setState IDLE s)
  | Open => Returned (onopen s)
  | Message m now date => onmessage_begin r m now date s
  | Decoded i =>
      match nth_error (awaiting s) i with
      | Some k =>
          onmessage_resume r k (set_awaiting (remove_nth i (awaiting s)) s)
      | None => Returned s
      end
  | ChannelError => Returned (onerror r s)
  | Close => Returned (onclose s)
  | Ended source => Returned (onended r source s)
  | TimerFires i =>
      match nth_error (timers s) i with
      | Some (_, cb) => run_timer r cb (set_timers (remove_nth i (timers s)) s)
      | None => Returned s
      end
  end.

(** A run of complete [onmessage] calls, each with its clock readings; an
    exception thrown by one call is its own (the handler is [async]) and the
    next message is handled all the same. *)
Fixpoint onmessages (r : Revision) (ms : list (ServerMessage * T * Z))
  (s : Store) : Store :=
  match ms with
  | [] => s
  | (m, now, date) :: rest =>
      onmessages r rest (after (onmessage r m now date s))
  end.


(** A run of events, each handled from the store the previous one left. *)
Fixpoint run (r : Revision) (es : list Event) (s : Store) : Store :=
  match es with
  | [] => s
  | e :: rest => run r rest (after (step r s e))
  end.

(** *** Messages used in the statements *)

Definition output_message (t : jsstring) : ServerMessage :=
  {| outputTranscription := Some (Some t); inputTranscription := None;
     turnComplete := false; modelTurn := None; interrupted := false |}.

Definition input_message (t : jsstring) : ServerMessage :=
  {| outputTranscription := None; inputTranscription := Some (Some t);
     turnComplete := false; modelTurn := None; interrupted := false |}.

Definition audio_message (d : T) : ServerMessage :=
  {| outputTranscription := None; inputTranscription := None;
     turnComplete := false; modelTurn := Some (WithParts (Some d));
     interrupted := false |}.

Definition turnComplete_message : ServerMessage :=
  {| outputTranscription := None; inputTranscription := None;
     turnComplete := true; modelTurn := None; interrupted := false |}.

(** A turn-complete message whose [modelTurn] has no [parts]. *)
Definition turnComplete_without_parts : ServerMessage :=
  {| outputTranscription := None; inputTranscription := None;
     turnComplete := true; modelTurn := Some WithoutParts;
     interrupted := false |}.

(** A turn-complete message whose output transcription has no [text]. *)
Definition turnComplete_without_text : ServerMessage :=
  {| outputTranscription := Some None; inputTranscription := None;
     turnComplete := true; modelTurn := None; interrupted := false |}.

Definition interrupted_message : ServerMessage :=
  {| outputTranscription := None; inputTranscription := None;
     turnComplete := false; modelTurn := None; interrupted := true |}.

(** The transcription branch the handler takes throws: in [part_000], the
    one of a transcription without text. *)
Definition text_throws (r : Revision) (m : ServerMessage) : bool :=
  match r with
  | AppTsx => false
  | Part000 =>
      match outputTranscription m with
      | Some (Some _) => false
      | Some None => true
      | None =>
          match inputTranscription m with
          | Some None => true
          | _ => false
          end
      end
  end.

(** The handler throws before it reaches its branches on [turnComplete] and
    [audioData]: on its first statement, or in the transcription branch it
    takes.  [App.tsx] never does. *)
Definition throws_early (r : Revision) (m : ServerMessage) : bool :=
  audioData_throws r m || text_throws r m.

(** *** The playback scheduler as the specification words it *)

(** A chunk: the reading of the playback clock when it is handled, and the
    duration of its decoded buffer. *)
Definition Chunk : Type := T * T.

(** The audio chunks of a run of messages: those of the messages whose
    handler reaches its branch on [audioData]. *)
Fixpoint chunks_of (r : Revision) (ms : list (ServerMessage * T * Z))
  : list Chunk :=
  match ms with
  | [] => []
  | (m, now, _) :: rest =>
      match audioData m with
      | Some d =>
          if throws_early r m then chunks_of r rest
          else (now, d) :: chunks_of r rest
      | None => chunks_of r rest
      end
  end.

(** [startTime = max(nextStartTime, currentPlaybackClockTime)], then
    [nextStartTime = startTime + chunkDuration]: the start time and the
    duration of every chunk. *)
Fixpoint spec_schedule (nextStartTime : T) (chunks : list Chunk)
  : list (T * T) :=
  match chunks with
  | [] => []
  | (clock, d) :: rest =>
      let startTime := tmax nextStartTime clock in
      (startTime, d) :: spec_schedule (tadd startTime d) rest
  end.

(** The cursor the specification's scheduler ends with. *)
Fixpoint spec_cursor (nextStartTime : T) (chunks : list Chunk) : T :=
  match chunks with
  | [] => nextStartTime
  | (clock, d) :: rest => spec_cursor (tadd (tmax nextStartTime clock) d) rest
  end.

(** Every chunk is handled before the end of the one before it, the first
    of them before [previous_end]. *)
Fixpoint timely (previous_end : T) (chunks : list Chunk) : Prop :=
  match chunks with
  | [] => True
  | (clock, d) :: rest =>
      tle clock previous_end /\ timely (tadd (tmax previous_end clock) d) rest
  end.

(** Timely delivery of every chunk but the first, which has no chunk
    before it. *)
Definition timely_after_first (nextStartTime : T) (chunks : list Chunk)
  : Prop :=
  match chunks with
  | [] => True
  | (clock, d) :: rest => timely (tadd (tmax nextStartTime clock) d) rest
  end.

(** Each source starts where the one before it ends. *)
Fixpoint gapless (l : list Source) : Prop :=
  match l with
  | a :: ((b :: _) as rest) =>
      scheduledStart b = tadd (scheduledStart a) (duration a) /\ gapless rest
  | _ => True
  end.

(** Start times never go back. *)
Fixpoint nondecreasing (l : list Source) : Prop :=
  match l with
  | a :: ((b :: _) as rest) =>
      tle (scheduledStart a) (scheduledStart b) /\ nondecreasing rest
  | _ => True
  end.

Definition start_and_duration (src : Source) : T * T :=
  (scheduledStart src, duration src).

(** *** The cursor invariant *)

(** Buffer durations are not negative: those of the suspended handlers, *)
Definition durations_ok (s : Store) : Prop :=
  Forall (fun k => tle tzero (buffer_duration k)) (awaiting s).

(** and that of the chunk a message carries. *)
Definition event_ok (e : Event) : Prop :=
  match e with
  | Message m _ _ =>
      match audioData m with
      | Some d => tle tzero d
      | None => True
      end
  | _ => True
  end.

(** The event runs the [interrupted] branch of [onmessage]: a message with
    the flag and no audio, or the resumption of a handler whose message had
    the flag. *)
Definition interrupting (s : Store) (e : Event) : bool :=
  match e with
  | Message m _ _ =>
      match audioData m with
      | Some _ => false
      | None => interrupted m
      end
  | Decoded i =>
      match nth_error (awaiting s) i with
      | Some k => message_interrupted k
      | None => false
      end
  | _ => false
  end.

(** The event runs [stopConversation]. *)
Definition stopping (s : Store) (e : Event) : bool :=
  match e with
  | ClickStop => true
  | TimerFires i =>
      match nth_error (timers s) i with
      | Some (_, ForcedSleepStop) => true
      | _ => false
      end
  | _ => false
  end.

(** *** [SLEEP] in [App.tsx] *)

(** [App.tsx] never calls [stopConversation(true)] and sets no timer, so it
    never enters [SLEEP] and no closure ever sees that state. *)
Definition never_slept (s : Store) : Prop :=
  is_SLEEP (state s) = false /\
  is_SLEEP (closureState s) = false /\
  is_SLEEP (standbyClosureState s) = false /\
  timers s = [].

(** *** The wake words *)

(** [enableWakeWord]: the array [wakeWords] of [recognition.onresult]. *)
Definition wakeWords (r : Revision) : list jsstring :=
  match r with
  | AppTsx => [js "hey salin"; js "hi salin"; js "translate"]
  | Part000 =>
      [js "hey salin"; js "hi salin"; js "hoy salin"; js "kamusta salin";
       js "kumusta salin"; js "what's up salin"; js "translate"]
  end.

(** [wakeWords.some(word => lastMatch.includes(word))], with [lastMatch] the
    lower-cased transcript of the latest result. *)
Definition wake_match (r : Revision) (transcript : jsstring) : bool :=
  let lastMatch := toLowerCase transcript in
  existsb (fun word => includes lastMatch word) (wakeWords r).

(** [recognition.onresult]: on a match the conversation is started from the
    closure of [enableWakeWord]. *)
Definition onresult (r : Revision) (transcript : jsstring) (apiKey : bool)
  (s : Store) : Store :=
  if wake_match r transcript
  then startConversation r (standbyClosureState s) apiKey s
  else s.

(** *** Words for the statements about the handlers *)

(** What an output fragment adds to the accumulator. *)
Definition visible_text (fragment : jsstring) : jsstring :=
  match moodMatch fragment with
  | Some md => trim (replace_first fragment (mood_tag md))
  | None => fragment
  end.

(** The mood after a fragment. *)
Definition mood_after (md : Mood) (fragment : jsstring) : Mood :=
  match moodMatch fragment with
  | Some md' => md'
  | None => md
  end.

(** A run of messages that carry an output fragment and nothing else. *)
Definition output_messages (fs : list (jsstring * T * Z))
  : list (ServerMessage * T * Z) :=
  map (fun x => (output_message (fst (fst x)), snd (fst x), snd x)) fs.

(** No source starts before the one scheduled before it has ended. *)
Fixpoint no_overlap (l : list Source) : Prop :=
  match l with
  | a :: ((b :: _) as rest) =>
      tle (tadd (scheduledStart a) (duration a)) (scheduledStart b)
      /\ no_overlap rest
  | _ => True
  end.

(** The nodes [part_000]'s loop calls [stop()] on: those up to the first
    one that raises, that one included. *)
Fixpoint calls_until_raise (srcs : list Source) : list nat :=
  match srcs with
  | [] => []
  | src :: rest =>
      sid src :: (if stop_raises (sid src) then [] else calls_until_raise rest)
  end.

(** The readings of [Date.now()] never go back along the messages of a run,
    and none is before [lo]. *)
Fixpoint dates_nondecreasing (lo : Z) (es : list Event) : Prop :=
  match es with
  | [] => True
  | Message _ _ date :: rest =>
      (lo <= date)%Z /\ dates_nondecreasing date rest
  | _ :: rest => dates_nondecreasing lo rest
  end.

(** The handler left the error slot alone, and did not enter [ERROR]. *)
Definition error_kept (s s' : Store) : Prop :=
  errorMessage s' = errorMessage s /\
  (state s' = state s \/ state s' <> ERROR).

(** The event calls [startConversation]. *)
Definition starting (e : Event) : bool :=
  match e with
  | ClickStart _ | WakePhrase _ => true
  | _ => false
  end.

(** The error slot is filled whenever the state is [ERROR]. *)
Definition error_shown (s : Store) : Prop :=
  state s = ERROR -> errorMessage s <> None.

(** *** Handlers that overlap *)

(** No event of the run runs the [interrupted] branch. *)
Fixpoint uninterrupted (r : Revision) (s : Store) (es : list Event) : Prop :=
  match es with
  | [] => True
  | e :: rest =>
      interrupting s e = false /\ uninterrupted r (after (step r s e)) rest
  end.

(** The event resumes a suspended handler, which starts its source. *)
Definition resumes (s : Store) (e : Event) : bool :=
  match e with
  | Decoded i =>
      match nth_error (awaiting s) i with
      | Some _ => true
      | None => false
      end
  | _ => false
  end.

(** Timely delivery along a run of events: once a source has been started
    ([started]), every message with audio is handled before the end of the
    source started last, which is where the cursor stands. *)
Fixpoint timely_run (r : Revision) (started : bool) (s : Store)
  (es : list Event) : Prop :=
  match es with
  | [] => True
  | e :: rest =>
      (started = true ->
       match e with
       | Message m now _ =>
           match audioData m with
           | Some _ => tle now (nextStartTimeRef s)
           | None => True
           end
       | _ => True
       end) /\
      timely_run r (started || resumes s e) (after (step r s e)) rest
  end.

(** The first source starts at [cursor] or later, and each of the others
    at the end of the one before it or later. *)
Fixpoint chained (cursor : T) (l : list Source) : Prop :=
  match l with
  | [] => True
  | a :: rest =>
      tle cursor (scheduledStart a) /\
      chained (tadd (scheduledStart a) (duration a)) rest
  end.

(** The first source starts at [cursor], and each of the others at the end
    of the one before it. *)
Fixpoint gapless_from (cursor : T) (l : list Source) : Prop :=
  match l with
  | [] => True
  | a :: rest =>
      scheduledStart a = cursor /\
      gapless_from (tadd (scheduledStart a) (duration a)) rest
  end.

(* ===================================================================== *)
(** ** Proofs                                                             *)
(* ===================================================================== *)

Ltac unfold_setters :=
  unfold setTimeout, setState, setMood, setTranscripts, setErrorMessage,
    set_sessionRef, set_audioContextRef, set_outputAudioContextRef,
    set_sourcesRef, set_nextStartTimeRef, set_currentInputTranscription,
    set_currentOutputTranscription, set_closureState,
    set_standbyClosureState, set_timers, set_awaiting, set_stopCalls,
    set_nextSourceId, set_startCalls in *.

(** Setters and projections evaluated by value on a store that has been
    taken apart, so that nested updates are not copied before they reduce. *)
Ltac store_cbv :=
  cbv beta iota zeta delta
    [setTimeout setState setMood setTranscripts setErrorMessage
     set_sessionRef set_audioContextRef set_outputAudioContextRef
     set_sourcesRef set_nextStartTimeRef set_currentInputTranscription
     set_currentOutputTranscription set_closureState
     set_standbyClosureState set_timers set_awaiting set_stopCalls
     set_nextSourceId set_startCalls
     state mood transcripts errorMessage sessionRef audioContextRef
     outputAudioContextRef sourcesRef nextStartTimeRef
     currentInputTranscription currentOutputTranscription closureState
     standbyClosureState timers awaiting stopCalls nextSourceId startCalls
     after returns].

(** Case analysis on the scrutinee of the first [match] of the goal. *)
Ltac break_match :=
  match goal with
  | |- context [match ?x with _ => _ end] =>
      match x with
      | context [match _ with _ => _ end] => fail 1
      | _ => destruct x eqn:?
      end
  end.

Ltac crunch :=
  repeat (store_cbv; try break_match);
  store_cbv; try reflexivity; try congruence; auto.

(** *** What the text branches leave alone *)

(** Whether the transcription branch returns or throws does not depend on
    the store. *)
Lemma transcription_block_outcome r m s :
  transcription_block r m s =
  if text_throws r m then Thrown (after (transcription_block r m s))
  else Returned (after (transcription_block r m s)).
Proof.
  unfold transcription_block, text_throws.
  destruct r, (outputTranscription m) as [[t|]|],
    (inputTranscription m) as [[t'|]|];
    try reflexivity;
    repeat match goal with
           | |- context [if ?b then _ else _] => destruct b
           end; reflexivity.
Qed.

(** [onmessage] by the place where it stops early, if it does. *)
Lemma onmessage_eq r m now date s :
  onmessage r m now date s =
  if audioData_throws r m then Thrown s
  else if text_throws r m then Thrown (after (transcription_block r m s))
  else audio_then_interrupted r m now
         (turnComplete_block m date (after (transcription_block r m s))).
Proof.
  unfold onmessage. rewrite (transcription_block_outcome r m s).
  destruct (audioData_throws r m), (text_throws r m); reflexivity.
Qed.

Lemma onmessage_begin_eq r m now date s :
  onmessage_begin r m now date s =
  if audioData_throws r m then Thrown s
  else if text_throws r m then Thrown (after (transcription_block r m s))
  else audio_suspend r m now
         (turnComplete_block m date (after (transcription_block r m s))).
Proof.
  unfold onmessage_begin. rewrite (transcription_block_outcome r m s).
  destruct (audioData_throws r m), (text_throws r m); reflexivity.
Qed.

Lemma audioData_throws_AppTsx m : audioData_throws AppTsx m = false.
Proof. unfold audioData_throws. destruct (modelTurn m) as [[|]|]; reflexivity. Qed.

Lemma text_throws_AppTsx m : text_throws AppTsx m = false.
Proof. reflexivity. Qed.

Lemma throws_early_split r m :
  throws_early r m = false ->
  audioData_throws r m = false /\ text_throws r m = false.
Proof. unfold throws_early. apply orb_false_iff. Qed.

Lemma transcription_block_scheduler r m s :
  let s' := after (transcription_block r m s) in
  nextStartTimeRef s' = nextStartTimeRef s /\
  sourcesRef s' = sourcesRef s /\
  outputAudioContextRef s' = outputAudioContextRef s /\
  nextSourceId s' = nextSourceId s /\
  transcripts s' = transcripts s /\
  stopCalls s' = stopCalls s.
Proof.
  destruct s; unfold transcription_block, output_fragment; destruct r; crunch;
    repeat split; crunch.
Qed.

Lemma turnComplete_block_scheduler m date s :
  let s' := turnComplete_block m date s in
  nextStartTimeRef s' = nextStartTimeRef s /\
  sourcesRef s' = sourcesRef s /\
  outputAudioContextRef s' = outputAudioContextRef s /\
  nextSourceId s' = nextSourceId s /\
  stopCalls s' = stopCalls s.
Proof.
  destruct s; unfold turnComplete_block; crunch; repeat split; crunch.
Qed.

(** One complete [onmessage] call that carries no interruption, seen from
    the scheduler. *)
Lemma onmessage_scheduler r m now date s :
  interrupted m = false ->
  outputAudioContextRef s = true ->
  let s' := after (onmessage r m now date s) in
  outputAudioContextRef s' = true /\
  match audioData m with
  | Some d =>
      if throws_early r m then
        sourcesRef s' = sourcesRef s /\
        nextStartTimeRef s' = nextStartTimeRef s
      else
        sourcesRef s' =
          sourcesRef s ++ [{| sid := nextSourceId s;
                              scheduledStart := tmax (nextStartTimeRef s) now;
                              duration := d |}] /\
        nextStartTimeRef s' = tadd (tmax (nextStartTimeRef s) now) d
  | None =>
      sourcesRef s' = sourcesRef s /\
      nextStartTimeRef s' = nextStartTimeRef s
  end.
Proof.
  intros Hi Hctx.
  destruct (transcription_block_scheduler r m s) as (A1 & A2 & A3 & A4 & _).
  destruct (turnComplete_block_scheduler m date
              (after (transcription_block r m s)))
    as (B1 & B2 & B3 & B4 & _).
  rewrite onmessage_eq. unfold throws_early.
  destruct (audioData_throws r m); simpl orb.
  { simpl. destruct (audioData m); auto. }
  destruct (text_throws r m).
  { simpl. destruct (audioData m); repeat split; congruence. }
  unfold audio_then_interrupted. rewrite Hi.
  set (s2 := turnComplete_block m date (after (transcription_block r m s)))
    in *.
  assert (Hctx2 : outputAudioContextRef s2 = true) by congruence.
  assert (Hsrc : sourcesRef s2 = sourcesRef s) by congruence.
  assert (Hnst : nextStartTimeRef s2 = nextStartTimeRef s) by congruence.
  assert (Hid : nextSourceId s2 = nextSourceId s) by congruence.
  unfold interrupted_block, schedule_source.
  clearbody s2. destruct s2. simpl in Hctx2, Hsrc, Hnst, Hid. subst.
  destruct (audioData m) as [d|]; store_cbv; repeat split.
Qed.

(** *** The specification's scheduler *)

Lemma spec_schedule_nondecreasing chunks : forall cursor news,
  Forall (fun c : Chunk => tle tzero (snd c)) chunks ->
  map start_and_duration news = spec_schedule cursor chunks ->
  nondecreasing news /\
  match news with [] => True | a :: _ => tle cursor (scheduledStart a) end.
Proof.
  induction chunks as [|[clock d] rest IH]; intros cursor news Hd Hn.
  - destruct news; [simpl; auto | discriminate].
  - destruct news as [|a news]; [discriminate|].
    simpl in Hn. injection Hn as Hs Hdur Hrest.
    pose proof (Forall_inv Hd) as Hd1. simpl in Hd1.
    pose proof (Forall_inv_tail Hd) as Hd2.
    destruct (IH _ _ Hd2 Hrest) as [IH1 IH2].
    split.
    + destruct news as [|b news]; [exact I|]. split; [|exact IH1].
      eapply tle_trans; [|exact IH2]. rewrite <- Hs.
      apply tadd_nonneg. exact Hd1.
    + rewrite Hs. apply tmax_ub_l.
Qed.

Lemma spec_schedule_timely chunks : forall cursor news,
  timely cursor chunks ->
  map start_and_duration news = spec_schedule cursor chunks ->
  gapless news /\
  match news with [] => True | a :: _ => scheduledStart a = cursor end.
Proof.
  induction chunks as [|[clock d] rest IH]; intros cursor news Ht Hn.
  - destruct news; [simpl; auto | discriminate].
  - destruct news as [|a news]; [discriminate|].
    simpl in Hn. injection Hn as Hs Hdur Hrest.
    destruct Ht as [Ht1 Ht2].
    destruct (IH _ _ Ht2 Hrest) as [IH1 IH2].
    split.
    + destruct news as [|b news]; [exact I|]. split; [|exact IH1].
      rewrite IH2, Hs, Hdur. reflexivity.
    + rewrite Hs. apply tmax_absorb. exact Ht1.
Qed.

Lemma spec_schedule_gapless chunks cursor news :
  timely_after_first cursor chunks ->
  map start_and_duration news = spec_schedule cursor chunks ->
  gapless news.
Proof.
  destruct chunks as [|[clock d] rest]; intros Ht Hn.
  - destruct news; [exact I | discriminate].
  - destruct news as [|a news]; [discriminate|].
    simpl in Hn. injection Hn as Hs Hdur Hrest.
    destruct (spec_schedule_timely _ _ _ Ht Hrest) as [G1 G2].
    destruct news as [|b news]; [exact I|]. split; [|exact G1].
    rewrite G2, Hs, Hdur. reflexivity.
Qed.

(** The code schedules what the specification's scheduler schedules. *)
Lemma onmessages_refine_spec r ms : forall s,
  outputAudioContextRef s = true ->
  Forall (fun x : ServerMessage * T * Z => interrupted (fst (fst x)) = false)
    ms ->
  exists news,
    sourcesRef (onmessages r ms s) = sourcesRef s ++ news /\
    map start_and_duration news
      = spec_schedule (nextStartTimeRef s) (chunks_of r ms) /\
    nextStartTimeRef (onmessages r ms s)
      = spec_cursor (nextStartTimeRef s) (chunks_of r ms).
Proof.
  induction ms as [|[[m now] date] rest IH]; intros s Hctx Hall.
  - exists []. simpl. rewrite app_nil_r. auto.
  - inversion Hall as [|? ? Hm Hrest]; subst. simpl in Hm.
    destruct (onmessage_scheduler r m now date s Hm Hctx) as [Hctx' Hstep].
    destruct (IH _ Hctx' Hrest) as (news & E1 & E2 & E3).
    simpl onmessages. simpl chunks_of.
    destruct (audioData m) as [d|]; [destruct (throws_early r m)|].
    + destruct Hstep as [S1 S2]. rewrite S1 in E1. rewrite S2 in E2, E3.
      exists news. auto.
    + destruct Hstep as [S1 S2]. rewrite S1 in E1. rewrite S2 in E2, E3.
      eexists (_ :: news). rewrite E1, <- app_assoc. simpl.
      split; [reflexivity|]. split; [|exact E3].
      unfold start_and_duration at 1. simpl. rewrite E2. reflexivity.
    + destruct Hstep as [S1 S2]. rewrite S1 in E1. rewrite S2 in E2, E3.
      exists news. auto.
Qed.

(** Complete calls: the sources started are those of the specification's
    scheduler, each at [max(nextStartTime, clock)] with the cursor then set
    to that start time plus the chunk's duration. *)
Lemma onmessages_gapless r ms s :
  outputAudioContextRef s = true ->
  Forall (fun x : ServerMessage * T * Z => interrupted (fst (fst x)) = false)
    ms ->
  exists news,
    sourcesRef (onmessages r ms s) = sourcesRef s ++ news /\
    map start_and_duration news
      = spec_schedule (nextStartTimeRef s) (chunks_of r ms) /\
    nextStartTimeRef (onmessages r ms s)
      = spec_cursor (nextStartTimeRef s) (chunks_of r ms) /\
    (Forall (fun c : Chunk => tle tzero (snd c)) (chunks_of r ms) ->
     nondecreasing news) /\
    (timely_after_first (nextStartTimeRef s) (chunks_of r ms) ->
     gapless news).
Proof.
  intros Hctx Hall.
  destruct (onmessages_refine_spec r ms s Hctx Hall) as (news & E1 & E2 & E3).
  exists news. repeat split; auto.
  - intros Hd. eapply spec_schedule_nondecreasing; eauto.
  - intros Ht. eapply spec_schedule_gapless; eauto.
Qed.

(** *** The cursor *)

Lemma Forall_remove_nth {A : Type} (P : A -> Prop) (l : list A) : forall i,
  Forall P l -> Forall P (remove_nth i l).
Proof.
  induction l as [|x l IH]; intros i H; simpl.
  - destruct i; constructor.
  - inversion H; subst. destruct i; [assumption | constructor; auto].
Qed.

Lemma stopConversation_cursor r f s :
  let s' := after (stopConversation r f s) in
  nextStartTimeRef s' = nextStartTimeRef s /\ awaiting s' = awaiting s.
Proof. destruct s; unfold stopConversation; crunch. Qed.

Lemma interrupted_block_cursor r flag s :
  let s' := after (interrupted_block r flag s) in
  awaiting s' = awaiting s /\
  (nextStartTimeRef s' = nextStartTimeRef s \/
   flag = true /\ nextStartTimeRef s' = tzero).
Proof. destruct s; unfold interrupted_block; destruct r; crunch. Qed.

Lemma run_timer_cursor r cb s :
  let s' := after (run_timer r cb s) in
  nextStartTimeRef s' = nextStartTimeRef s /\ awaiting s' = awaiting s.
Proof.
  destruct cb; simpl run_timer;
    [apply stopConversation_cursor | destruct s; crunch | destruct s; crunch].
Qed.

Lemma transcription_block_awaiting r m s :
  awaiting (after (transcription_block r m s)) = awaiting s.
Proof.
  destruct s; unfold transcription_block, output_fragment; destruct r; crunch.
Qed.

Lemma turnComplete_block_awaiting m date s :
  awaiting (turnComplete_block m date s) = awaiting s.
Proof. destruct s; unfold turnComplete_block; crunch. Qed.

Lemma interrupted_block_resets r s :
  returns (interrupted_block r true s) = true ->
  nextStartTimeRef (after (interrupted_block r true s)) = tzero.
Proof.
  destruct s; unfold interrupted_block. store_cbv.
  destruct (stop_each r sourcesRef0 stopCalls0); [|discriminate].
  destruct r; reflexivity.
Qed.

(** An event that runs the [interrupted] branch and returns has set the
    cursor to 0. *)
Lemma interruption_resets r s e :
  interrupting s e = true ->
  returns (step r s e) = true ->
  nextStartTimeRef (after (step r s e)) = tzero.
Proof.
  destruct e; try discriminate; unfold interrupting; simpl step.
  - rewrite onmessage_begin_eq. unfold audio_suspend.
    destruct (audioData m); [discriminate|]. intros ->.
    destruct (audioData_throws r m); [discriminate|].
    destruct (text_throws r m); [discriminate|].
    apply interrupted_block_resets.
  - destruct (nth_error (awaiting s) i) as [k|]; [|discriminate].
    intros Hk. unfold onmessage_resume. rewrite Hk.
    apply interrupted_block_resets.
Qed.

(** C2, amended.  With buffer durations that are not negative, no event
    makes [nextStartTimeRef] smaller except an interruption signal, and an
    interruption signal whose handler returns sets it to 0 (not to the
    reading of the playback clock); a full stop of the conversation leaves it
    as it is. *)
Theorem C2_cursor_monotone r s e :
  durations_ok s ->
  event_ok e ->
  let s' := after (step r s e) in
  durations_ok s' /\
  (tle (nextStartTimeRef s) (nextStartTimeRef s') \/
   interrupting s e = true /\ nextStartTimeRef s' = tzero) /\
  (interrupting s e = true -> returns (step r s e) = true ->
   nextStartTimeRef s' = tzero) /\
  (stopping s e = true -> nextStartTimeRef s' = nextStartTimeRef s).
Proof.
  intros Hs He s'. subst s'.
  cut (durations_ok (after (step r s e)) /\
       (tle (nextStartTimeRef s) (nextStartTimeRef (after (step r s e))) \/
        interrupting s e = true /\
        nextStartTimeRef (after (step r s e)) = tzero) /\
       (stopping s e = true ->
        nextStartTimeRef (after (step r s e)) = nextStartTimeRef s)).
  { intros (H1 & H2 & H3). repeat split; auto.
    apply interruption_resets. }
  unfold durations_ok in *.
  assert (Hsame : forall s' : Store,
            nextStartTimeRef s' = nextStartTimeRef s ->
            awaiting s' = awaiting s ->
            Forall (fun k => tle tzero (buffer_duration k)) (awaiting s') /\
            (tle (nextStartTimeRef s) (nextStartTimeRef s') \/
             interrupting s e = true /\ nextStartTimeRef s' = tzero) /\
            (stopping s e = true -> nextStartTimeRef s' = nextStartTimeRef s)).
  { intros s' E1 E2. rewrite E1, E2. repeat split; auto.
    left. apply tle_refl. }
  destruct e; simpl step;
    try (apply Hsame; destruct s;
         unfold startConversation, startConversation_catch,
           toggleStandby, onopen, onerror, onclose, onended;
         destruct r; crunch; fail).
  - (* ClickStop *)
    destruct (stopConversation_cursor r false s). apply Hsame; assumption.
  - (* Message *)
    rewrite onmessage_begin_eq. unfold audio_suspend.
    pose proof (transcription_block_scheduler r m s) as (A1 & _).
    pose proof (turnComplete_block_scheduler m date
                  (after (transcription_block r m s))) as (B1 & _).
    pose proof (transcription_block_awaiting r m s) as A2.
    pose proof (turnComplete_block_awaiting m date
                  (after (transcription_block r m s))) as B2.
    destruct (audioData_throws r m); [apply (Hsame s); reflexivity|].
    destruct (text_throws r m); [apply Hsame; assumption|].
    set (s2 := turnComplete_block m date (after (transcription_block r m s)))
      in *.
    simpl in He. simpl interrupting. simpl stopping.
    destruct (audioData m) as [d|].
    + unfold_setters; simpl.
      destruct (outputAudioContextRef s2); simpl.
      * repeat split; try discriminate.
        -- apply Forall_app. split; [congruence|]. repeat constructor.
           exact He.
        -- left. rewrite B1, A1. apply tmax_ub_l.
      * destruct r; simpl; (repeat split; try discriminate;
          [congruence | left; rewrite B1, A1; apply tle_refl]).
    + destruct (interrupted_block_cursor r (interrupted m) s2) as [I1 I2].
      repeat split; try discriminate.
      * congruence.
      * destruct I2 as [I2|[I2 I3]].
        -- left. rewrite I2, B1, A1. apply tle_refl.
        -- right. split; assumption.
  - (* Decoded *)
    destruct (nth_error (awaiting s) i) as [k|] eqn:Hk;
      [|apply (Hsame s); reflexivity].
    simpl interrupting. simpl stopping. rewrite Hk.
    unfold onmessage_resume.
    set (s1 := schedule_source (buffer_duration k)
                 (set_awaiting (remove_nth i (awaiting s)) s)).
    destruct (interrupted_block_cursor r (message_interrupted k) s1)
      as [I1 I2].
    assert (N1 : nextStartTimeRef s1
                 = tadd (nextStartTimeRef s) (buffer_duration k))
      by reflexivity.
    assert (W1 : awaiting s1 = remove_nth i (awaiting s)) by reflexivity.
    repeat split; try discriminate.
    + rewrite I1, W1. apply Forall_remove_nth. exact Hs.
    + destruct I2 as [I2|[I2 I3]].
      * left. rewrite I2, N1. apply tadd_nonneg.
        apply nth_error_In in Hk.
        rewrite Forall_forall in Hs. apply Hs. exact Hk.
      * right. auto.
  - (* TimerFires *)
    destruct (nth_error (timers s) i) as [[delay cb]|] eqn:Hk;
      [|apply (Hsame s); reflexivity].
    destruct (run_timer_cursor r cb (set_timers (remove_nth i (timers s)) s))
      as [R1 R2].
    apply Hsame; [rewrite R1 | rewrite R2]; reflexivity.
Qed.

(** *** The scheduler under overlapping handlers *)

Lemma chained_weaken (c c' : T) (l : list Source) :
  tle c c' -> chained c' l -> chained c l.
Proof.
  destruct l as [|a l]; simpl; [auto|]. intros H [H1 H2].
  split; [eapply tle_trans; eassumption | exact H2].
Qed.

Lemma chained_no_overlap (l : list Source) : forall c,
  chained c l -> no_overlap l.
Proof.
  induction l as [|a l IH]; intros c H; [exact I|].
  destruct H as [_ H]. destruct l as [|b l]; [exact I|].
  split; [apply H | apply (IH _ H)].
Qed.

Lemma no_overlap_nondecreasing (l : list Source) :
  Forall (fun src => tle tzero (duration src)) l ->
  no_overlap l -> nondecreasing l.
Proof.
  induction l as [|a l IH]; intros Hd H; [exact I|].
  destruct l as [|b l]; [exact I|]. destruct H as [H1 H2].
  split; [|apply IH; [exact (Forall_inv_tail Hd) | exact H2]].
  eapply tle_trans; [|exact H1]. apply tadd_nonneg. exact (Forall_inv Hd).
Qed.

Lemma gapless_from_gapless (l : list Source) : forall c,
  gapless_from c l -> gapless l.
Proof.
  induction l as [|a l IH]; intros c H; [exact I|].
  destruct H as [_ H]. destruct l as [|b l]; [exact I|].
  split; [apply H | apply (IH _ H)].
Qed.

Lemma stopConversation_startCalls r f s :
  startCalls (after (stopConversation r f s)) = startCalls s.
Proof. destruct s; unfold stopConversation; crunch. Qed.

Lemma run_timer_startCalls r cb s :
  startCalls (after (run_timer r cb s)) = startCalls s.
Proof.
  destruct cb; simpl run_timer;
    [apply stopConversation_startCalls | destruct s; crunch
    | destruct s; crunch].
Qed.

Lemma transcription_block_startCalls r m s :
  startCalls (after (transcription_block r m s)) = startCalls s.
Proof.
  destruct s; unfold transcription_block, output_fragment; destruct r; crunch.
Qed.

Lemma turnComplete_block_startCalls m date s :
  startCalls (turnComplete_block m date s) = startCalls s.
Proof. destruct s; unfold turnComplete_block; crunch. Qed.

(** The first half of a handler, when the context exists: the cursor is
    raised to the clock reading, nothing is started, and the handler is
    suspended with the decoded buffer to come. *)
Lemma begin_scheduler r m now date s d :
  outputAudioContextRef s = true ->
  audioData m = Some d ->
  throws_early r m = false ->
  let s' := after (step r s (Message m now date)) in
  nextStartTimeRef s' = tmax (nextStartTimeRef s) now /\
  startCalls s' = startCalls s /\
  sourcesRef s' = sourcesRef s /\
  awaiting s' =
    awaiting s ++ [{| buffer_duration := d;
                      message_interrupted := interrupted m |}].
Proof.
  intros Hctx Ha He. simpl step.
  apply throws_early_split in He as [He1 He2].
  destruct (transcription_block_scheduler r m s) as (A1 & A2 & A3 & _).
  pose proof (transcription_block_awaiting r m s) as A4.
  pose proof (transcription_block_startCalls r m s) as A5.
  destruct (turnComplete_block_scheduler m date
              (after (transcription_block r m s)))
    as (B1 & B2 & B3 & _).
  pose proof (turnComplete_block_awaiting m date
                (after (transcription_block r m s))) as B4.
  pose proof (turnComplete_block_startCalls m date
                (after (transcription_block r m s))) as B5.
  rewrite onmessage_begin_eq, He1, He2. unfold audio_suspend. rewrite Ha.
  set (s2 := turnComplete_block m date (after (transcription_block r m s)))
    in *.
  assert (Hctx2 : outputAudioContextRef s2 = true) by congruence.
  assert (Hsrc : sourcesRef s2 = sourcesRef s) by congruence.
  assert (Hnst : nextStartTimeRef s2 = nextStartTimeRef s) by congruence.
  assert (Haw : awaiting s2 = awaiting s) by congruence.
  assert (Hst : startCalls s2 = startCalls s) by congruence.
  clearbody s2. destruct s2. simpl in Hctx2, Hsrc, Hnst, Haw, Hst. subst.
  store_cbv. repeat split.
Qed.

(** The second half of a handler whose message had no [interrupted] flag:
    its source is started at the cursor as it stands now, and the cursor
    moves to the end of that source. *)
Lemma resume_scheduler r s i k :
  nth_error (awaiting s) i = Some k ->
  message_interrupted k = false ->
  let s' := after (step r s (Decoded i)) in
  let source := {| sid := nextSourceId s;
                   scheduledStart := nextStartTimeRef s;
                   duration := buffer_duration k |} in
  startCalls s' = startCalls s ++ [source] /\
  sourcesRef s' = sourcesRef s ++ [source] /\
  nextStartTimeRef s' = tadd (nextStartTimeRef s) (buffer_duration k).
Proof.
  intros Hk Hi. simpl step. rewrite Hk.
  unfold onmessage_resume, interrupted_block. rewrite Hi.
  destruct s. store_cbv. repeat split.
Qed.

(** What an event that does not run the [interrupted] branch does to the
    log of the started sources and to the cursor. *)
Lemma step_started r s e :
  interrupting s e = false ->
  let s' := after (step r s e) in
  if resumes s e then
    exists k,
      startCalls s' =
        startCalls s ++ [{| sid := nextSourceId s;
                            scheduledStart := nextStartTimeRef s;
                            duration := buffer_duration k |}] /\
      nextStartTimeRef s' = tadd (nextStartTimeRef s) (buffer_duration k)
  else
    startCalls s' = startCalls s /\
    (nextStartTimeRef s' = nextStartTimeRef s \/
     match e with
     | Message m now _ =>
         audioData m <> None /\
         nextStartTimeRef s' = tmax (nextStartTimeRef s) now
     | _ => False
     end).
Proof.
  intros Hi. cbv zeta.
  destruct e; simpl resumes; cbv iota; simpl step;
    try (split; [|left]; destruct s;
         unfold startConversation, startConversation_catch,
           toggleStandby, onopen, onerror, onclose, onended;
         destruct r; crunch; fail).
  - (* ClickStop *)
    split; [apply stopConversation_startCalls|]. left.
    apply stopConversation_cursor.
  - (* Message *)
    simpl in Hi. rewrite onmessage_begin_eq.
    destruct (transcription_block_scheduler r m s) as (A1 & _).
    pose proof (transcription_block_startCalls r m s) as A5.
    destruct (turnComplete_block_scheduler m date
                (after (transcription_block r m s))) as (B1 & _).
    pose proof (turnComplete_block_startCalls m date
                  (after (transcription_block r m s))) as B5.
    destruct (audioData_throws r m); [split; [|left]; reflexivity|].
    destruct (text_throws r m); [split; [|left]; assumption|].
    unfold audio_suspend.
    set (s2 := turnComplete_block m date (after (transcription_block r m s)))
      in *.
    assert (Hnst : nextStartTimeRef s2 = nextStartTimeRef s) by congruence.
    assert (Hst : startCalls s2 = startCalls s) by congruence.
    clearbody s2. destruct s2. simpl in Hnst, Hst. subst.
    destruct (audioData m) as [d|].
    + store_cbv. destruct outputAudioContextRef0.
      * split; [reflexivity|]. right. split; [discriminate | reflexivity].
      * destruct r; (split; [|left]; reflexivity).
    + rewrite Hi. split; [|left]; reflexivity.
  - (* Decoded *)
    simpl in Hi. destruct (nth_error (awaiting s) i) as [k|] eqn:Hk.
    + exists k.
      destruct (resume_scheduler r s i k Hk Hi) as (P1 & _ & P3).
      simpl step in P1, P3. rewrite Hk in P1, P3. split; assumption.
    + split; [|left]; reflexivity.
  - (* TimerFires *)
    destruct (nth_error (timers s) i) as [[d cb]|];
      [|split; [|left]; reflexivity].
    rewrite run_timer_startCalls.
    destruct (run_timer_cursor r cb (set_timers (remove_nth i (timers s)) s))
      as [R1 _].
    rewrite R1. split; [|left]; destruct s; reflexivity.
Qed.

Lemma run_started r es : forall s,
  uninterrupted r s es ->
  exists news,
    startCalls (run r es s) = startCalls s ++ news /\
    chained (nextStartTimeRef s) news /\
    (timely_run r true s es -> gapless_from (nextStartTimeRef s) news) /\
    (timely_run r false s es -> gapless news).
Proof.
  induction es as [|e es IH]; intros s Hun.
  { exists []. simpl. rewrite app_nil_r. auto. }
  destruct Hun as [Hi Hun].
  pose proof (step_started r s e Hi) as Hstep. cbv zeta in Hstep.
  destruct (IH _ Hun) as (news & E1 & E2 & E3 & E4).
  change (run r (e :: es) s) with (run r es (after (step r s e))).
  set (s' := after (step r s e)) in *.
  destruct (resumes s e) eqn:Hres.
  - destruct Hstep as (k & P1 & P3).
    eexists (_ :: news). rewrite E1, P1, <- app_assoc.
    split; [reflexivity|]. rewrite P3 in E2, E3.
    split; [split; [apply tle_refl | exact E2]|]. split.
    + intros [_ T2]. rewrite Hres in T2.
      split; [reflexivity | exact (E3 T2)].
    + intros [_ T2]. rewrite Hres in T2.
      apply (gapless_from_gapless _ (nextStartTimeRef s)).
      split; [reflexivity | exact (E3 T2)].
  - destruct Hstep as (P1 & P3).
    exists news. rewrite E1, P1. split; [reflexivity|].
    assert (Hle : tle (nextStartTimeRef s) (nextStartTimeRef s')).
    { destruct P3 as [->|P3]; [apply tle_refl|].
      destruct e; try contradiction. destruct P3 as [_ ->].
      apply tmax_ub_l. }
    split; [exact (chained_weaken _ _ _ Hle E2)|]. split.
    + intros [T1 T2]. specialize (T1 eq_refl). rewrite Hres in T2.
      assert (Heq : nextStartTimeRef s' = nextStartTimeRef s).
      { destruct P3 as [P3|P3]; [exact P3|].
        destruct e; try contradiction. destruct P3 as [Ha ->].
        destruct (audioData m); [|contradiction].
        apply tmax_absorb. exact T1. }
      rewrite <- Heq. exact (E3 T2).
    + intros [_ T2]. rewrite Hres in T2. exact (E4 T2).
Qed.

(** C1, amended.

    - Over complete calls of the handler (none of them suspended while
      another runs), while the output context exists and no interruption is
      signalled, the sources started are those of the specification's
      scheduler: each starts at [max(nextStartTime, clock)], the cursor is
      then that start plus the chunk's duration, the start times never go
      back when no duration is negative, and under timely delivery each
      source starts where the one before it ends.

    - A handler takes [max(nextStartTime, clock)] before it awaits the
      decoder, and starts nothing yet; when it resumes it starts its source
      at the cursor as it stands then, which other handlers may have moved
      meanwhile, and adds the duration to it.

    - Whatever the events and however the two halves of the handlers are
      interleaved, as long as no interruption is handled: no source starts
      before the end of the one started before it, the start times never go
      back when no duration is negative, and each source starts where the
      one before it ends provided every message with audio that comes after
      the first start is handled no later than the cursor. *)
Theorem C1_scheduler r s :
  (outputAudioContextRef s = true ->
   forall ms,
     Forall (fun x : ServerMessage * T * Z =>
               interrupted (fst (fst x)) = false) ms ->
     exists news,
       sourcesRef (onmessages r ms s) = sourcesRef s ++ news /\
       map start_and_duration news
         = spec_schedule (nextStartTimeRef s) (chunks_of r ms) /\
       nextStartTimeRef (onmessages r ms s)
         = spec_cursor (nextStartTimeRef s) (chunks_of r ms) /\
       (Forall (fun c : Chunk => tle tzero (snd c)) (chunks_of r ms) ->
        nondecreasing news) /\
       (timely_after_first (nextStartTimeRef s) (chunks_of r ms) ->
        gapless news)) /\
  (outputAudioContextRef s = true ->
   forall m now date d,
     audioData m = Some d ->
     throws_early r m = false ->
     let s1 := after (step r s (Message m now date)) in
     nextStartTimeRef s1 = tmax (nextStartTimeRef s) now /\
     startCalls s1 = startCalls s /\
     awaiting s1 =
       awaiting s ++ [{| buffer_duration := d;
                         message_interrupted := interrupted m |}]) /\
  (forall i k,
     nth_error (awaiting s) i = Some k ->
     message_interrupted k = false ->
     let s1 := after (step r s (Decoded i)) in
     startCalls s1 =
       startCalls s ++ [{| sid := nextSourceId s;
                           scheduledStart := nextStartTimeRef s;
                           duration := buffer_duration k |}] /\
     nextStartTimeRef s1 = tadd (nextStartTimeRef s) (buffer_duration k)) /\
  (forall es,
     uninterrupted r s es ->
     exists news,
       startCalls (run r es s) = startCalls s ++ news /\
       no_overlap news /\
       (Forall (fun src => tle tzero (duration src)) news ->
        nondecreasing news) /\
       (timely_run r false s es -> gapless news)).
Proof.
  split; [|split; [|split]].
  - intros Hctx ms Hall. apply onmessages_gapless; assumption.
  - intros Hctx m now date d Ha He s1. subst s1.
    destruct (begin_scheduler r m now date s d Hctx Ha He)
      as (P1 & P2 & _ & P4).
    auto.
  - intros i k Hk Hi s1. subst s1.
    destruct (resume_scheduler r s i k Hk Hi) as (P1 & _ & P3). auto.
  - intros es Hun.
    destruct (run_started r es s Hun) as (news & E1 & E2 & _ & E4).
    exists news. split; [exact E1|].
    pose proof (chained_no_overlap _ _ E2) as Hno.
    split; [exact Hno|]. split; [|exact E4].
    intros Hd. apply no_overlap_nondecreasing; assumption.
Qed.

(** *** Strings *)

Lemma trimStart_nil (l : jsstring) :
  trimStart l = [] <-> forallb is_ws l = true.
Proof.
  induction l as [|c l IH]; simpl; [tauto|].
  destruct (is_ws c); simpl; [exact IH|]. split; discriminate.
Qed.

Lemma forallb_rev (f : N -> bool) (l : jsstring) :
  forallb f (rev l) = forallb f l.
Proof.
  induction l as [|c l IH]; simpl; [reflexivity|].
  rewrite forallb_app, IH. simpl. rewrite andb_true_r. apply andb_comm.
Qed.

Lemma trimStart_blank (l : jsstring) :
  forallb is_ws (trimStart l) = forallb is_ws l.
Proof.
  induction l as [|c l IH]; simpl; [reflexivity|].
  destruct (is_ws c) eqn:E; simpl; [exact IH|]. rewrite E. reflexivity.
Qed.

(** [trim] leaves nothing exactly when every code unit is white space. *)
Lemma trim_empty (l : jsstring) : is_empty (trim l) = forallb is_ws l.
Proof.
  unfold trim, trimEnd.
  destruct (forallb is_ws l) eqn:E.
  - apply trimStart_nil in E. rewrite E. reflexivity.
  - destruct (rev (trimStart (rev (trimStart l)))) as [|c t] eqn:R;
      [|reflexivity].
    apply (f_equal (@rev N)) in R. rewrite rev_involutive in R. simpl in R.
    apply trimStart_nil in R.
    rewrite forallb_rev, trimStart_blank in R. congruence.
Qed.

Lemma startsWith_split (p l : jsstring) :
  startsWith p l = true -> l = p ++ skipn (List.length p) l.
Proof.
  revert l. induction p as [|x p IH]; intros l H; [reflexivity|].
  destruct l as [|y l]; [discriminate|]. simpl in H.
  apply andb_prop in H as [H1 H2]. apply N.eqb_eq in H1. subst y.
  simpl. f_equal. apply IH. exact H2.
Qed.

Lemma tag_at_Some (l : jsstring) (md : Mood) :
  tag_at l = Some md -> startsWith (mood_tag md) l = true.
Proof.
  unfold tag_at. intros H. apply find_some in H. apply H.
Qed.

Lemma tag_at_None (l : jsstring) (md : Mood) :
  tag_at l = None -> startsWith (mood_tag md) l = false.
Proof.
  unfold tag_at. intros H.
  apply (find_none _ _ H md). destruct md; simpl; tauto.
Qed.

Lemma moodMatch_eq (l : jsstring) :
  moodMatch l =
  match tag_at l with
  | Some md => Some md
  | None => match l with [] => None | _ :: rest => moodMatch rest end
  end.
Proof. destruct l; reflexivity. Qed.

Lemma replace_first_eq (l pat : jsstring) :
  replace_first l pat =
  if startsWith pat l then skipn (List.length pat) l
  else match l with [] => [] | c :: rest => c :: replace_first rest pat end.
Proof. destruct l; reflexivity. Qed.

(** The match is the leftmost tag, and removing the first occurrence of its
    text removes that very tag. *)
Lemma moodMatch_split (l : jsstring) (md : Mood) :
  moodMatch l = Some md ->
  exists pre post,
    l = pre ++ mood_tag md ++ post /\
    (forall k, k < List.length pre -> tag_at (skipn k l) = None) /\
    replace_first l (mood_tag md) = pre ++ post.
Proof.
  induction l as [|c l IH]; intros H.
  - discriminate.
  - rewrite moodMatch_eq in H.
    destruct (tag_at (c :: l)) as [m0|] eqn:E.
    + injection H as ->. apply tag_at_Some in E.
      exists [], (skipn (List.length (mood_tag md)) (c :: l)).
      split; [apply startsWith_split; exact E|].
      split; [intros k Hk; inversion Hk|].
      rewrite replace_first_eq, E. reflexivity.
    + destruct (IH H) as (pre & post & E1 & E2 & E3).
      exists (c :: pre), post.
      split; [rewrite <- app_comm_cons; f_equal; exact E1|].
      split.
      * intros [|k] Hk; [exact E|]. simpl. apply E2. simpl in Hk. lia.
      * rewrite replace_first_eq, (tag_at_None _ md E), E3. reflexivity.
Qed.

(** *** Fragments and turns *)

Lemma audio_then_interrupted_text r m now s :
  let s' := after (audio_then_interrupted r m now s) in
  transcripts s' = transcripts s /\
  currentInputTranscription s' = currentInputTranscription s /\
  currentOutputTranscription s' = currentOutputTranscription s /\
  (forall t, In t (timers s) -> In t (timers s')).
Proof.
  destruct s; unfold audio_then_interrupted, interrupted_block,
    schedule_source; destruct r; crunch.
Qed.

Lemma turnComplete_block_text m date s :
  turnComplete m = true ->
  let acc := currentOutputTranscription s in
  let s' := turnComplete_block m date s in
  transcripts s' =
    (if forallb is_ws acc then transcripts s
     else transcripts s ++
          [{| role := model; text := trim acc; timestamp := date |}]) /\
  currentInputTranscription s' = [] /\
  currentOutputTranscription s' = [].
Proof.
  intros Ht. destruct s; unfold turnComplete_block. rewrite Ht.
  store_cbv. rewrite <- trim_empty.
  destruct (is_empty (trim currentOutputTranscription0));
    destruct sourcesRef0; store_cbv; auto.
Qed.

(** X18.  A message with the turn-complete flag, handled by [App.tsx], or
    by [part_000] when its handler reaches the branch on the flag.  [acc] is
    the output accumulator when the flag is handled (after the message's own
    text fragment, if it has one).  If [acc] is all white space no entry is
    appended; otherwise exactly one entry is appended, with role [model] and
    the trimmed text; either way both accumulators are empty afterwards. *)
Theorem turn_completion r m now date s :
  turnComplete m = true ->
  r = AppTsx \/ throws_early r m = false ->
  let acc := currentOutputTranscription (after (transcription_block r m s)) in
  let s' := after (onmessage r m now date s) in
  (forallb is_ws acc = true -> transcripts s' = transcripts s) /\
  (forallb is_ws acc = false ->
   transcripts s' =
     transcripts s ++
     [{| role := model; text := trim acc; timestamp := date |}]) /\
  currentInputTranscription s' = [] /\
  currentOutputTranscription s' = [].
Proof.
  intros Ht He acc s'. subst acc s'.
  assert (He' : throws_early r m = false).
  { destruct He as [->|He]; [|exact He]. unfold throws_early.
    rewrite audioData_throws_AppTsx, text_throws_AppTsx. reflexivity. }
  apply throws_early_split in He' as [He1 He2].
  rewrite onmessage_eq, He1, He2.
  destruct (transcription_block_scheduler r m s) as (_ & _ & _ & _ & A & _).
  destruct (turnComplete_block_text m date
              (after (transcription_block r m s)) Ht)
    as (B1 & B2 & B3).
  destruct (audio_then_interrupted_text r m now
              (turnComplete_block m date (after (transcription_block r m s))))
    as (C1 & C2 & C3 & _).
  rewrite C1, C2, C3, B1, B2, B3, A.
  repeat split; auto; intros E; rewrite E; reflexivity.
Qed.

(** C5, amended.  An output-text fragment in which the expression matches:
    the mood becomes that of the leftmost tag, and what is appended to the
    output accumulator is the fragment without that tag, with the white space
    at its two ends trimmed; the text around the tag is kept as it is but for
    that trimming.  A fragment without a tag is appended unchanged and leaves
    the mood as it was. *)
Theorem C5_mood_tag r m fragment s :
  outputTranscription m = Some (Some fragment) ->
  let s' := after (transcription_block r m s) in
  (forall md, moodMatch fragment = Some md ->
     exists pre post,
       fragment = pre ++ mood_tag md ++ post /\
       (forall k, k < List.length pre -> tag_at (skipn k fragment) = None) /\
       mood s' = md /\
       currentOutputTranscription s' =
         currentOutputTranscription s ++ trim (pre ++ post)) /\
  (moodMatch fragment = None ->
     mood s' = mood s /\
     currentOutputTranscription s' = currentOutputTranscription s ++ fragment).
Proof.
  intros Hm s'. subst s'. split.
  - intros md Hmd.
    destruct (moodMatch_split fragment md Hmd) as (pre & post & E1 & E2 & E3).
    exists pre, post. split; [exact E1|]. split; [exact E2|].
    assert (Hne : is_empty fragment = false).
    { destruct fragment; [discriminate Hmd | reflexivity]. }
    destruct s; unfold transcription_block, output_fragment. rewrite Hm.
    destruct r; cbv beta iota; rewrite ?Hne, Hmd, E3; store_cbv; auto.
  - intros Hnone.
    destruct s; unfold transcription_block, output_fragment. rewrite Hm.
    destruct r; cbv beta iota; rewrite Hnone;
      [destruct fragment|]; store_cbv; rewrite ?app_nil_r; auto.
Qed.

(** *** Teardown *)

(** With [try]/[catch] around every call the loop always returns, *)
Lemma stop_each_AppTsx srcs : forall log,
  stop_each AppTsx srcs log = Returned (log ++ map sid srcs).
Proof.
  induction srcs as [|src srcs IH]; intros log; simpl.
  - rewrite app_nil_r. reflexivity.
  - destruct (stop_raises (sid src)); rewrite IH, <- app_assoc; reflexivity.
Qed.

(** and without it, it returns when no [stop()] raises. *)
Lemma stop_each_quiet r srcs : forall log,
  Forall (fun src => stop_raises (sid src) = false) srcs ->
  stop_each r srcs log = Returned (log ++ map sid srcs).
Proof.
  induction srcs as [|src srcs IH]; intros log H; simpl.
  - rewrite app_nil_r. reflexivity.
  - inversion H as [|? ? H1 H2]; subst. rewrite H1, (IH _ H2), <- app_assoc.
    reflexivity.
Qed.

(** No handler of [App.tsx] lets an exception escape. *)
Lemma AppTsx_returns s e : returns (step AppTsx s e) = true.
Proof.
  destruct e; simpl; try reflexivity.
  - unfold stopConversation. rewrite stop_each_AppTsx.
    destruct s; store_cbv; reflexivity.
  - rewrite onmessage_begin_eq, audioData_throws_AppTsx, text_throws_AppTsx.
    set (s2 := turnComplete_block m date
                 (after (transcription_block AppTsx m s))).
    clearbody s2. unfold audio_suspend, interrupted_block.
    rewrite stop_each_AppTsx. destruct s2. crunch.
  - destruct (nth_error (awaiting s) i); [|reflexivity].
    unfold onmessage_resume, interrupted_block.
    rewrite stop_each_AppTsx. crunch.
  - destruct (nth_error (timers s) i) as [[d cb]|]; [|reflexivity].
    destruct cb; simpl.
    + unfold stopConversation. rewrite stop_each_AppTsx. reflexivity.
    + reflexivity.
    + crunch.
Qed.

(** The [interrupted] branch when the loop over the live set returns: every
    source of the set had [stop()] called, the set is empty, the cursor is 0
    and the state is [LISTENING]; [part_000] resets the mood and [App.tsx]
    leaves it. *)
Lemma interrupted_block_effect r s :
  (r = AppTsx \/
   Forall (fun src => stop_raises (sid src) = false) (sourcesRef s)) ->
  exists s',
    interrupted_block r true s = Returned s' /\
    stopCalls s' = stopCalls s ++ map sid (sourcesRef s) /\
    sourcesRef s' = [] /\
    nextStartTimeRef s' = tzero /\
    state s' = LISTENING /\
    mood s' = match r with AppTsx => mood s | Part000 => NEUTRAL end.
Proof.
  intros H. unfold interrupted_block.
  assert (E : stop_each r (sourcesRef s) (stopCalls s)
              = Returned (stopCalls s ++ map sid (sourcesRef s))).
  { destruct H as [->|H]; [apply stop_each_AppTsx | apply stop_each_quiet, H]. }
  rewrite E. destruct s, r; eexists; (split; [reflexivity|]);
    store_cbv; repeat split.
Qed.

(** A complete [onmessage] call is its first half followed at once by the
    resumption of the handler it suspended. *)
Lemma onmessage_atomic r m now date s dur :
  throws_early r m = false ->
  audioData m = Some dur ->
  outputAudioContextRef s = true ->
  exists s1 k,
    onmessage_begin r m now date s = Returned s1 /\
    awaiting s1 = awaiting s ++ [k] /\
    onmessage_resume r k (set_awaiting (awaiting s) s1)
      = onmessage r m now date s.
Proof.
  intros He Ha Hc. apply throws_early_split in He as [He1 He2].
  rewrite onmessage_begin_eq, onmessage_eq, He1, He2.
  unfold audio_suspend, audio_then_interrupted, onmessage_resume.
  destruct (transcription_block_scheduler r m s) as (_ & _ & A3 & _).
  destruct (turnComplete_block_scheduler m date
              (after (transcription_block r m s)))
    as (_ & _ & B3 & _).
  pose proof (transcription_block_awaiting r m s) as A2.
  pose proof (turnComplete_block_awaiting m date
                (after (transcription_block r m s))) as B2.
  set (s2 := turnComplete_block m date (after (transcription_block r m s)))
    in *.
  assert (Hc2 : outputAudioContextRef s2 = true) by congruence.
  assert (Hw2 : awaiting s2 = awaiting s) by congruence.
  rewrite Ha. clearbody s2. destruct s2. simpl in Hc2, Hw2.
  subst. store_cbv. do 2 eexists. split; [reflexivity|].
  split; reflexivity.
Qed.

(** *** The farewell phrase *)

Lemma audio_suspend_timers r m now s t :
  In t (timers s) -> In t (timers (after (audio_suspend r m now s))).
Proof.
  destruct s; unfold audio_suspend, interrupted_block; destruct r; crunch.
Qed.

Lemma turnComplete_block_timers m date s :
  timers (turnComplete_block m date s) = timers s.
Proof. destruct s; unfold turnComplete_block; crunch. Qed.

Lemma In_remove_nth_app {A : Type} (l : list A) (i : nat) (x : A) :
  In x (remove_nth i l ++ [x]).
Proof. apply in_or_app. right. left. reflexivity. Qed.

(** C7, amended.  In [part_000], an input-transcription fragment that comes
    in a message without output transcription, whose [modelTurn] (if it has
    one) has its [parts], and whose lower-cased text contains
    "thank you salin" or "salamat salin", leaves a timer of 3000 ms for the
    forced-sleep stop.  When that timer fires and the loop over the live set
    returns, the state is [SLEEP] and a timer of 5000 ms is pending; when
    that one fires the state is [IDLE] and the mood [NEUTRAL]. *)
Theorem C7_forced_sleep m fragment now date s :
  audioData_throws Part000 m = false ->
  outputTranscription m = None ->
  inputTranscription m = Some (Some fragment) ->
  includes (toLowerCase fragment) (js "thank you salin") = true \/
  includes (toLowerCase fragment) (js "salamat salin") = true ->
  In (3000%Z, ForcedSleepStop)
     (timers (after (step Part000 s (Message m now date)))) /\
  (forall s2 i,
     nth_error (timers s2) i = Some (3000%Z, ForcedSleepStop) ->
     Forall (fun src => stop_raises (sid src) = false) (sourcesRef s2) ->
     let s3 := after (step Part000 s2 (TimerFires i)) in
     state s3 = SLEEP /\ In (5000%Z, WakeToIdle) (timers s3)) /\
  (forall s4 j,
     nth_error (timers s4) j = Some (5000%Z, WakeToIdle) ->
     let s5 := after (step Part000 s4 (TimerFires j)) in
     state s5 = IDLE /\ mood s5 = NEUTRAL).
Proof.
  intros Hp Ho Hi Hphrase. repeat split.
  - simpl step. rewrite onmessage_begin_eq, Hp.
    assert (Ht : text_throws Part000 m = false).
    { unfold text_throws. rewrite Ho, Hi. reflexivity. }
    rewrite Ht. apply audio_suspend_timers.
    rewrite turnComplete_block_timers.
    unfold transcription_block. rewrite Ho, Hi. cbv beta iota zeta.
    assert (E : includes (toLowerCase fragment) (js "salamat salin")
                || includes (toLowerCase fragment) (js "thank you salin")
                = true).
    { apply orb_true_iff. tauto. }
    rewrite E. destruct s; store_cbv. apply in_or_app. right. left.
    reflexivity.
  - simpl step. rewrite H. simpl run_timer. unfold stopConversation.
    destruct s2; store_cbv. simpl in H0.
    rewrite (stop_each_quiet Part000 _ _ H0). reflexivity.
  - simpl step. rewrite H. simpl run_timer. unfold stopConversation.
    destruct s2; store_cbv. simpl in H0.
    rewrite (stop_each_quiet Part000 _ _ H0). store_cbv. apply In_remove_nth_app.
  - simpl step. rewrite H. destruct s4; reflexivity.
  - simpl step. rewrite H. destruct s4; reflexivity.
Qed.

(** *** The transcript *)

Lemma stopConversation_transcripts r f s :
  transcripts (after (stopConversation r f s)) = transcripts s.
Proof. destruct s; unfold stopConversation; crunch. Qed.

Lemma interrupted_block_transcripts r flag s :
  transcripts (after (interrupted_block r flag s)) = transcripts s.
Proof. destruct s; unfold interrupted_block; destruct r; crunch. Qed.

Lemma audio_suspend_transcripts r m now s :
  transcripts (after (audio_suspend r m now s)) = transcripts s.
Proof.
  destruct s; unfold audio_suspend, interrupted_block; destruct r; crunch.
Qed.

Lemma turnComplete_block_transcripts m date s :
  transcripts (turnComplete_block m date s) = transcripts s \/
  exists entry,
    role entry = model /\
    transcripts (turnComplete_block m date s) = transcripts s ++ [entry].
Proof.
  destruct s; unfold turnComplete_block; crunch.
  all: right; eexists; split; [|reflexivity]; reflexivity.
Qed.

(** What an event does to the transcript: nothing, clear it, or append one
    entry of role [model]. *)
Lemma step_transcripts r s e :
  let s' := after (step r s e) in
  transcripts s' = transcripts s \/
  transcripts s' = [] \/
  exists entry, role entry = model /\ transcripts s' = transcripts s ++ [entry].
Proof.
  destruct e; simpl step;
    try (left; destruct s;
         unfold startConversation, startConversation_catch,
           toggleStandby, onopen, onerror, onclose, onended;
         destruct r; crunch; fail).
  - left. apply stopConversation_transcripts.
  - right. left. destruct s; reflexivity.
  - cbv zeta. rewrite onmessage_begin_eq.
    destruct (transcription_block_scheduler r m s) as (_ & _ & _ & _ & A & _).
    destruct (audioData_throws r m); [left; reflexivity|].
    destruct (text_throws r m); [left; exact A|].
    rewrite audio_suspend_transcripts, <- A.
    destruct (turnComplete_block_transcripts m date
                (after (transcription_block r m s))); auto.
  - destruct (nth_error (awaiting s) i); [|left; reflexivity].
    unfold onmessage_resume. cbv zeta.
    rewrite interrupted_block_transcripts. left. destruct s; reflexivity.
  - destruct (nth_error (timers s) i) as [[d cb]|]; [|left; reflexivity].
    left. destruct cb; simpl run_timer.
    + rewrite stopConversation_transcripts. destruct s; reflexivity.
    + destruct s; reflexivity.
    + destruct s; crunch.
Qed.

Lemma translations_all_model entries :
  Forall (fun entry => role entry = model) entries ->
  translations entries = entries.
Proof.
  unfold translations. induction 1 as [|entry l H _ IH]; simpl.
  - reflexivity.
  - rewrite H. simpl. f_equal. exact IH.
Qed.

Lemma run_transcripts r es : forall s,
  Forall (fun entry => role entry = model) (transcripts s) ->
  Forall (fun entry => role entry = model) (transcripts (run r es s)).
Proof.
  induction es as [|e es IH]; intros s H; simpl; [exact H|].
  apply IH.
  destruct (step_transcripts r s e) as [E|[E|(entry & E1 & E2)]].
  - rewrite E. exact H.
  - rewrite E. constructor.
  - rewrite E2. apply Forall_app. split; [exact H|]. repeat constructor.
    exact E1.
Qed.

(** C10.  Whatever events the component has handled since it mounted, every
    entry of the transcript has role [model], so the filter of the transcript
    view keeps all of them. *)
Theorem C10_transcript_roles r es :
  Forall (fun entry => role entry = model) (transcripts (run r es initial)) /\
  translations (transcripts (run r es initial))
    = transcripts (run r es initial).
Proof.
  assert (H : Forall (fun entry => role entry = model)
                (transcripts (run r es initial))).
  { apply run_transcripts. constructor. }
  split; [exact H | apply translations_all_model; exact H].
Qed.

(** *** The close handler in [App.tsx] *)

Lemma transcription_block_never_slept m s :
  never_slept s -> never_slept (after (transcription_block AppTsx m s)).
Proof.
  unfold never_slept. destruct s. simpl. intros (H1 & H2 & H3 & H4).
  unfold transcription_block, output_fragment. crunch; repeat split; crunch.
Qed.

Lemma turnComplete_block_never_slept m date s :
  never_slept s -> never_slept (turnComplete_block m date s).
Proof.
  unfold never_slept. destruct s. simpl. intros (H1 & H2 & H3 & H4).
  unfold turnComplete_block. crunch; repeat split; crunch.
Qed.

Lemma interrupted_block_never_slept flag s :
  never_slept s -> never_slept (after (interrupted_block AppTsx flag s)).
Proof.
  unfold never_slept. destruct s. simpl. intros (H1 & H2 & H3 & H4).
  unfold interrupted_block. crunch; repeat split; crunch.
Qed.

Lemma audio_suspend_never_slept m now s :
  never_slept s -> never_slept (after (audio_suspend AppTsx m now s)).
Proof.
  intros H. unfold audio_suspend.
  destruct (audioData m); [|apply interrupted_block_never_slept, H].
  revert H. unfold never_slept. destruct s. simpl.
  intros (H1 & H2 & H3 & H4). crunch; repeat split; crunch.
Qed.

Lemma stopConversation_never_slept s :
  never_slept s -> never_slept (after (stopConversation AppTsx false s)).
Proof.
  unfold never_slept. destruct s. simpl. intros (H1 & H2 & H3 & H4).
  unfold stopConversation. crunch; repeat split; crunch.
Qed.

Lemma AppTsx_step_never_slept s e :
  never_slept s -> never_slept (after (step AppTsx s e)).
Proof.
  intros H. destruct e; simpl step.
  - revert H. unfold never_slept, startConversation. destruct s. simpl.
    intros (H1 & H2 & H3 & H4). crunch; repeat split; crunch.
  - revert H. unfold never_slept, startConversation. destruct s. simpl.
    intros (H1 & H2 & H3 & H4). crunch; repeat split; crunch.
  - revert H. unfold never_slept, startConversation_catch. destruct s.
    simpl. intros (H1 & H2 & H3 & H4). repeat split; crunch.
  - revert H. unfold never_slept. destruct s. simpl. tauto.
  - apply stopConversation_never_slept, H.
  - revert H. unfold never_slept. destruct s. simpl. tauto.
  - revert H. unfold never_slept, toggleStandby. destruct s. simpl.
    intros (H1 & H2 & H3 & H4).
    destruct state0, supported; simpl; repeat split; auto; discriminate.
  - revert H. unfold never_slept. destruct s. simpl. tauto.
  - revert H. unfold never_slept, onopen. destruct s. simpl. tauto.
  - rewrite onmessage_begin_eq, audioData_throws_AppTsx, text_throws_AppTsx.
    apply audio_suspend_never_slept, turnComplete_block_never_slept,
      transcription_block_never_slept, H.
  - destruct (nth_error (awaiting s) i) as [k|]; [|exact H].
    unfold onmessage_resume. apply interrupted_block_never_slept.
    revert H. unfold never_slept. destruct s. simpl. tauto.
  - revert H. unfold never_slept, onerror. destruct s. simpl. tauto.
  - revert H. unfold never_slept, onclose. destruct s. simpl.
    intros (H1 & H2 & H3 & H4). rewrite H2. simpl. tauto.
  - revert H. unfold never_slept, onended. destruct s. simpl.
    intros (H1 & H2 & H3 & H4). rewrite H2. simpl.
    destruct (is_empty _); simpl; tauto.
  - destruct H as (H1 & H2 & H3 & H4). rewrite H4.
    destruct i; simpl; repeat split; assumption.
Qed.

(** In [App.tsx] the state is never [SLEEP], and the close handler always
    sets [IDLE]. *)
Lemma AppTsx_close_sets_IDLE es :
  let s := run AppTsx es initial in
  is_SLEEP (state s) = false /\ state (onclose s) = IDLE.
Proof.
  assert (H : forall es s, never_slept s -> never_slept (run AppTsx es s)).
  { clear es. induction es as [|e es IH]; intros s Hs; simpl; [exact Hs|].
    apply IH, AppTsx_step_never_slept, Hs. }
  destruct (H es initial) as (H1 & H2 & _).
  { repeat split. }
  split; [exact H1|]. unfold onclose. rewrite H2. destruct (run AppTsx es initial).
  reflexivity.
Qed.

(* ===================================================================== *)
(** ** Further properties of the component                                *)
(* ===================================================================== *)

(** *** [stopConversation] *)

(** What [part_000]'s bare loop does on any live set. *)
Lemma stop_each_Part000 srcs : forall log,
  stop_each Part000 srcs log =
  if existsb (fun src => stop_raises (sid src)) srcs
  then Thrown (log ++ calls_until_raise srcs)
  else Returned (log ++ map sid srcs).
Proof.
  induction srcs as [|src srcs IH]; intros log; simpl.
  - rewrite app_nil_r. reflexivity.
  - destruct (stop_raises (sid src)); simpl; [reflexivity|].
    rewrite IH, <- !app_assoc. reflexivity.
Qed.

(** X1.  A stop of the conversation whose loop over the live set returns
    (always in [App.tsx]; in [part_000] when no [stop()] raises) releases the
    session and both audio contexts, calls [stop()] on every live source and
    empties the set, and sets [IDLE] and [NEUTRAL].  It leaves the transcript,
    the cursor, both text accumulators, the pending timers and the suspended
    handlers as they were. *)
Theorem stopConversation_teardown r s :
  (r = AppTsx \/
   Forall (fun src => stop_raises (sid src) = false) (sourcesRef s)) ->
  exists s',
    stopConversation r false s = Returned s' /\
    sessionRef s' = false /\ audioContextRef s' = false /\
    outputAudioContextRef s' = false /\
    sourcesRef s' = [] /\
    stopCalls s' = stopCalls s ++ map sid (sourcesRef s) /\
    state s' = IDLE /\ mood s' = NEUTRAL /\
    transcripts s' = transcripts s /\
    nextStartTimeRef s' = nextStartTimeRef s /\
    currentInputTranscription s' = currentInputTranscription s /\
    currentOutputTranscription s' = currentOutputTranscription s /\
    timers s' = timers s /\ awaiting s' = awaiting s.
Proof.
  intros H.
  assert (E : stop_each r (sourcesRef s) (stopCalls s)
              = Returned (stopCalls s ++ map sid (sourcesRef s))).
  { destruct H as [->|H]; [apply stop_each_AppTsx | apply stop_each_quiet, H]. }
  destruct s. simpl in E. unfold stopConversation. store_cbv. rewrite E.
  eexists. split; [reflexivity|]. store_cbv. repeat split.
Qed.

(** X2.  Stopping a conversation that has just been stopped changes
    nothing. *)
Theorem stopConversation_idempotent r s s' :
  stopConversation r false s = Returned s' ->
  stopConversation r false s' = Returned s'.
Proof.
  destruct s. unfold stopConversation at 1. store_cbv.
  destruct (stop_each r sourcesRef0 stopCalls0) as [log|log];
    [|discriminate].
  intros H. injection H as <-. reflexivity.
Qed.

(** X3.  In [part_000] a stop of the conversation, forced sleep or not,
    returns exactly when no live source raises on [stop()].  When one does,
    the session and the audio contexts have been released already, [stop()]
    has been called on the sources up to that one, and the live set, the
    state, the mood and the timers are as before the call. *)
Theorem Part000_stop_until_raise f s :
  returns (stopConversation Part000 f s)
    = negb (existsb (fun src => stop_raises (sid src)) (sourcesRef s)) /\
  (existsb (fun src => stop_raises (sid src)) (sourcesRef s) = true ->
   let s' := after (stopConversation Part000 f s) in
   sessionRef s' = false /\ audioContextRef s' = false /\
   outputAudioContextRef s' = false /\
   stopCalls s' = stopCalls s ++ calls_until_raise (sourcesRef s) /\
   sourcesRef s' = sourcesRef s /\
   state s' = state s /\ mood s' = mood s /\ timers s' = timers s).
Proof.
  destruct s. unfold stopConversation. store_cbv.
  rewrite stop_each_Part000.
  destruct (existsb (fun src => stop_raises (sid src)) sourcesRef0).
  - split; [reflexivity|]. intros _. store_cbv. repeat split.
  - split; [destruct f; reflexivity | discriminate].
Qed.

(** X4.  After a stop of the conversation that returned, the close event
    of the channel leaves [IDLE] and [NEUTRAL], whatever state the close
    handler's closure saw. *)
Theorem stop_then_close r s s' :
  stopConversation r false s = Returned s' ->
  state (onclose s') = IDLE /\ mood (onclose s') = NEUTRAL.
Proof.
  destruct s. unfold stopConversation. store_cbv.
  destruct (stop_each r sourcesRef0 stopCalls0) as [log|log];
    [|discriminate].
  intros H. injection H as <-. unfold onclose. store_cbv.
  destruct (is_SLEEP closureState0); split; reflexivity.
Qed.

(** *** The scheduler *)

Lemma spec_schedule_no_overlap chunks : forall cursor news,
  map start_and_duration news = spec_schedule cursor chunks ->
  no_overlap news /\
  Forall2 (fun (c : Chunk) src => tle (fst c) (scheduledStart src))
    chunks news /\
  match news with [] => True | a :: _ => tle cursor (scheduledStart a) end.
Proof.
  induction chunks as [|[clock d] rest IH]; intros cursor news Hn.
  - destruct news; [repeat split; constructor | discriminate].
  - destruct news as [|a news]; [discriminate|].
    simpl in Hn. injection Hn as Hs Hdur Hrest.
    destruct (IH _ _ Hrest) as (IH1 & IH2 & IH3).
    repeat split.
    + destruct news as [|b news]; [exact I|]. split; [|exact IH1].
      rewrite Hs, Hdur. exact IH3.
    + constructor; [|exact IH2]. simpl. rewrite Hs. apply tmax_ub_r.
    + rewrite Hs. apply tmax_ub_l.
Qed.

(** X5.  Over a run of messages handled while the output context exists,
    none of them an interruption, whatever the clock readings and durations:
    no source is scheduled to start before the end of the source scheduled
    before it, none is scheduled before the clock reading its message was
    handled at, and the first starts no earlier than the cursor the run
    began with. *)
Theorem scheduler_never_overlaps r ms s :
  outputAudioContextRef s = true ->
  Forall (fun x : ServerMessage * T * Z => interrupted (fst (fst x)) = false)
    ms ->
  exists news,
    sourcesRef (onmessages r ms s) = sourcesRef s ++ news /\
    no_overlap news /\
    Forall2 (fun (c : Chunk) src => tle (fst c) (scheduledStart src))
      (chunks_of r ms) news /\
    match news with
    | [] => True
    | a :: _ => tle (nextStartTimeRef s) (scheduledStart a)
    end.
Proof.
  intros Hctx Hall.
  destruct (onmessages_refine_spec r ms s Hctx Hall) as (news & E1 & E2 & _).
  exists news. split; [exact E1|].
  apply spec_schedule_no_overlap. exact E2.
Qed.

(** X6.  Neither the stop of a conversation nor the start of the next one
    touches the cursor: the first chunk of the new session is scheduled at
    the larger of the cursor the old session ended with and the clock
    reading of the new output context. *)
Theorem cursor_survives_restart r s s1 now date d :
  stopConversation r false s = Returned s1 ->
  let s2 := run r [ClickStart true; SessionReady; Open] s1 in
  let s3 := after (onmessage r (audio_message d) now date s2) in
  nextStartTimeRef s2 = nextStartTimeRef s /\
  map start_and_duration (sourcesRef s3)
    = [(tmax (nextStartTimeRef s) now, d)] /\
  nextStartTimeRef s3 = tadd (tmax (nextStartTimeRef s) now) d.
Proof.
  destruct s. unfold stopConversation. store_cbv.
  destruct (stop_each r sourcesRef0 stopCalls0) as [log|log];
    [|discriminate].
  intros H. injection H as <-.
  destruct r; repeat split; reflexivity.
Qed.

(** X7.  An interruption does not cancel a handler that is suspended at its
    [await]: when the handler resumes after the interruption, its chunk is
    started at cursor 0 and is the only live source, and the state stays
    [LISTENING]. *)
Theorem chunk_in_flight_survives_interruption r s i k now date :
  nth_error (awaiting s) i = Some k ->
  message_interrupted k = false ->
  (r = AppTsx \/
   Forall (fun src => stop_raises (sid src) = false) (sourcesRef s)) ->
  let s1 := after (step r s (Message interrupted_message now date)) in
  let s2 := after (step r s1 (Decoded i)) in
  sourcesRef s1 = [] /\
  map start_and_duration (sourcesRef s2) = [(tzero, buffer_duration k)] /\
  nextStartTimeRef s2 = tadd tzero (buffer_duration k) /\
  state s2 = LISTENING.
Proof.
  intros Hk Hi Hq s1 s2.
  assert (E1 : s1 = after (interrupted_block r true s))
    by (destruct r; reflexivity).
  destruct (interrupted_block_effect r s Hq)
    as (s' & R & _ & P2 & P3 & P4 & _).
  destruct (interrupted_block_cursor r true s) as [W _].
  rewrite R in E1, W. simpl in E1, W. subst s'.
  subst s2. simpl step. rewrite W, Hk.
  unfold onmessage_resume, interrupted_block. rewrite Hi.
  clearbody s1. destruct s1. simpl in P2, P3, P4. subst.
  repeat split.
Qed.

(** X8.  The debounce of [part_000].  When the only live source ends, a
    timer of 500 ms is left and the state is not touched.  If a chunk is
    scheduled before the timer fires, the timer changes nothing: the state is
    [SPEAKING] and the mood is kept.  If nothing is scheduled, the timer sets
    [LISTENING] and [NEUTRAL], unless the closure saw [SLEEP]. *)
Theorem Part000_debounce s source :
  sourcesRef s = [source] ->
  timers s = [] ->
  outputAudioContextRef s = true ->
  let s1 := onended Part000 source s in
  timers s1 = [(500%Z, ReturnToListening)] /\
  state s1 = state s /\
  (forall d now date,
     let s2 := after (onmessage Part000 (audio_message d) now date s1) in
     let s3 := after (step Part000 s2 (TimerFires 0)) in
     state s3 = SPEAKING /\ mood s3 = mood s /\ timers s3 = []) /\
  (let s3 := after (step Part000 s1 (TimerFires 0)) in
   timers s3 = [] /\
   state s3 = (if is_SLEEP (closureState s) then state s else LISTENING) /\
   mood s3 = (if is_SLEEP (closureState s) then mood s else NEUTRAL)).
Proof.
  destruct s. simpl. intros -> -> ->.
  unfold onended, delete_source. simpl filter. rewrite Nat.eqb_refl.
  simpl. repeat split.
  all: destruct (is_SLEEP closureState0); reflexivity.
Qed.

(** *** The error slot *)

Lemma error_kept_trans s1 s2 s3 :
  error_kept s1 s2 -> error_kept s2 s3 -> error_kept s1 s3.
Proof.
  unfold error_kept. intros [A1 A2] [B1 B2]. split; [congruence|].
  destruct B2 as [B2|B2]; [rewrite B2; exact A2 | right; exact B2].
Qed.

Lemma transcription_block_error r m s :
  error_kept s (after (transcription_block r m s)).
Proof.
  unfold error_kept. destruct s; unfold transcription_block, output_fragment;
    destruct r;
    crunch; (split; [reflexivity|]); crunch; right; discriminate.
Qed.

Lemma turnComplete_block_error m date s :
  error_kept s (turnComplete_block m date s).
Proof.
  unfold error_kept. destruct s; unfold turnComplete_block;
    crunch; (split; [reflexivity|]); crunch; right; discriminate.
Qed.

Lemma interrupted_block_error r flag s :
  error_kept s (after (interrupted_block r flag s)).
Proof.
  unfold error_kept. destruct s; unfold interrupted_block; destruct r;
    crunch; (split; [reflexivity|]); crunch; right; discriminate.
Qed.

Lemma audio_suspend_error r m now s :
  error_kept s (after (audio_suspend r m now s)).
Proof.
  unfold audio_suspend.
  destruct (audioData m); [|apply interrupted_block_error].
  unfold error_kept. destruct s; destruct r;
    crunch; (split; [reflexivity|]); right; discriminate.
Qed.

Lemma stopConversation_error r f s :
  error_kept s (after (stopConversation r f s)).
Proof.
  unfold error_kept. destruct s; unfold stopConversation;
    crunch; (split; [reflexivity|]); crunch; right; discriminate.
Qed.

Lemma run_timer_error r cb s : error_kept s (after (run_timer r cb s)).
Proof.
  destruct cb; simpl run_timer; [apply stopConversation_error| |];
    unfold error_kept; destruct s; crunch; (split; [reflexivity|]);
    crunch; right; discriminate.
Qed.

(** Every event that does not itself fill the slot or start a conversation
    leaves the slot alone and does not enter [ERROR]. *)
Lemma step_error r s e :
  let s' := after (step r s e) in
  error_kept s s' \/
  (state s' = ERROR /\ errorMessage s' <> None) \/
  (starting e = true /\ state s' = CONNECTING).
Proof.
  destruct e; simpl step.
  - destruct s; unfold startConversation; destruct r; crunch;
      right; (left; split; [reflexivity | discriminate])
             || (right; split; reflexivity).
  - destruct s; unfold startConversation; destruct r; crunch;
      right; (left; split; [reflexivity | discriminate])
             || (right; split; reflexivity).
  - right. left. destruct s; unfold startConversation_catch; store_cbv.
    split; [reflexivity | discriminate].
  - left. destruct s; split; [reflexivity | left; reflexivity].
  - left. apply stopConversation_error.
  - left. destruct s; split; [reflexivity | left; reflexivity].
  - left. unfold error_kept, toggleStandby. destruct s. store_cbv.
    destruct state0, supported; store_cbv;
      (split; [reflexivity|]); (left; reflexivity) || (right; discriminate).
  - left. destruct s; split; [reflexivity | right; discriminate].
  - left. destruct s; split; [reflexivity | right; discriminate].
  - left. cbv zeta. rewrite onmessage_begin_eq.
    destruct (audioData_throws r m);
      [split; [reflexivity | left; reflexivity]|].
    destruct (text_throws r m); [apply transcription_block_error|].
    eapply error_kept_trans; [apply transcription_block_error|].
    eapply error_kept_trans; [apply turnComplete_block_error|].
    apply audio_suspend_error.
  - left. destruct (nth_error (awaiting s) i) as [k|];
      [|split; [reflexivity | left; reflexivity]].
    unfold onmessage_resume.
    eapply error_kept_trans; [|apply interrupted_block_error].
    destruct s; split; [reflexivity | left; reflexivity].
  - right. left. destruct s; unfold onerror; store_cbv.
    split; [reflexivity | destruct r; discriminate].
  - left. unfold error_kept, onclose. destruct s. store_cbv.
    destruct (is_SLEEP closureState0); store_cbv;
      (split; [reflexivity|]); (left; reflexivity) || (right; discriminate).
  - left. unfold error_kept, onended. destruct s, r; crunch;
      (split; [reflexivity|]); (left; reflexivity) || (right; discriminate).
  - left. destruct (nth_error (timers s) i) as [[d cb]|];
      [|split; [reflexivity | left; reflexivity]].
    eapply error_kept_trans; [|apply run_timer_error].
    destruct s; split; [reflexivity | left; reflexivity].
Qed.

(** X9.  Whatever events the component has handled since it mounted, an
    error message is shown whenever the state is [ERROR]; and an event that
    does not start a conversation never removes a message that is shown,
    so the message of a failure stays through whatever state follows until
    the next start. *)
Theorem error_message_kept r :
  (forall es, error_shown (run r es initial)) /\
  (forall s e,
     starting e = false ->
     errorMessage s <> None ->
     errorMessage (after (step r s e)) <> None).
Proof.
  split.
  - assert (H : forall es s, error_shown s -> error_shown (run r es s)).
    { induction es as [|e es IH]; intros s Hs; simpl; [exact Hs|].
      apply IH. unfold error_shown in *.
      destruct (step_error r s e) as [[K1 K2]|[[K1 K2]|[_ K]]].
      - intros E. rewrite K1. apply Hs.
        destruct K2 as [K2|K2]; [congruence | contradiction].
      - intros _. exact K2.
      - intros E. congruence. }
    intros es. apply H. unfold error_shown. discriminate.
  - intros s e He Hm.
    destruct (step_error r s e) as [[K1 _]|[[_ K2]|[K _]]].
    + rewrite K1. exact Hm.
    + exact K2.
    + congruence.
Qed.

(** X10.  [App.tsx] never calls [stopConversation(true)] and never sets a
    timer: whatever events it has handled since it mounted, the state is not
    [SLEEP] and no timer is pending. *)
Theorem AppTsx_never_sleeps es :
  state (run AppTsx es initial) <> SLEEP /\
  timers (run AppTsx es initial) = [].
Proof.
  assert (H : forall es s, never_slept s -> never_slept (run AppTsx es s)).
  { clear es. induction es as [|e es IH]; intros s Hs; simpl; [exact Hs|].
    apply IH, AppTsx_step_never_slept, Hs. }
  destruct (H es initial) as (H1 & _ & _ & H4); [repeat split|].
  split; [|exact H4]. intros E. rewrite E in H1. discriminate.
Qed.

(** *** The keys and the timestamps of the transcript *)

Lemma keys_from_lower lo l : forall idx,
  Forall (fun entry => (lo <= timestamp entry)%Z) l ->
  Forall (fun key => (lo + idx <= key)%Z) (keys_from idx l).
Proof.
  induction l as [|entry l IH]; intros idx H; simpl; [constructor|].
  inversion H as [|? ? H1 H2]; subst. constructor; [lia|].
  eapply Forall_impl; [|apply (IH (idx + 1)%Z H2)].
  simpl. intros key Hk. lia.
Qed.

Lemma keys_from_increasing l : forall idx,
  StronglySorted Z.le (map timestamp l) ->
  StronglySorted Z.lt (keys_from idx l).
Proof.
  induction l as [|entry l IH]; intros idx H; simpl; [constructor|].
  simpl in H. inversion H as [|? ? H1 H2]; subst.
  constructor; [apply IH; exact H1|].
  rewrite Forall_map in H2.
  eapply Forall_impl; [|apply (keys_from_lower (timestamp entry) l
                                 (idx + 1)%Z H2)].
  simpl. intros key Hk. lia.
Qed.

Lemma increasing_NoDup (l : list Z) : StronglySorted Z.lt l -> NoDup l.
Proof.
  induction 1 as [|x l _ IH H]; constructor; [|exact IH].
  intros Hin. rewrite Forall_forall in H. specialize (H x Hin). lia.
Qed.

Lemma translations_sorted entries :
  StronglySorted Z.le (map timestamp entries) ->
  StronglySorted Z.le (map timestamp (translations entries)).
Proof.
  unfold translations.
  induction entries as [|entry l IH]; intros H; simpl; [constructor|].
  simpl in H. inversion H as [|? ? H1 H2]; subst.
  destruct (is_model (role entry)); [|apply IH; exact H1].
  simpl. constructor; [apply IH; exact H1|].
  rewrite Forall_map in *. rewrite Forall_forall in *.
  intros x Hx. apply H2. apply filter_In in Hx. apply Hx.
Qed.

(** X11.  [Transcript.tsx] keys each rendered entry by its timestamp plus
    its index.  When the timestamps of the entries never go back, the keys
    strictly increase along the list, so no two rendered entries share a
    key. *)
Theorem transcript_keys_distinct entries :
  StronglySorted Z.le (map timestamp entries) ->
  StronglySorted Z.lt (transcript_keys entries) /\
  NoDup (transcript_keys entries).
Proof.
  intros H.
  assert (K : StronglySorted Z.lt (transcript_keys entries)).
  { apply keys_from_increasing, translations_sorted, H. }
  split; [exact K | apply increasing_NoDup, K].
Qed.

Lemma sorted_snoc (l : list Z) (x : Z) :
  StronglySorted Z.le l -> Forall (fun y => (y <= x)%Z) l ->
  StronglySorted Z.le (l ++ [x]).
Proof.
  induction 1 as [|y l Hl IH Hy]; intros Hx; simpl.
  - repeat constructor.
  - inversion Hx as [|? ? Hx1 Hx2]; subst.
    constructor; [apply IH; exact Hx2|].
    apply Forall_app. split; [exact Hy|]. repeat constructor. exact Hx1.
Qed.

(** What an event does to the transcript, with the timestamp of the entry
    it appends. *)
Lemma step_transcripts_dated r s e :
  let s' := after (step r s e) in
  transcripts s' = transcripts s \/
  transcripts s' = [] \/
  exists m now date txt,
    e = Message m now date /\
    transcripts s' =
      transcripts s ++ [{| role := model; text := txt; timestamp := date |}].
Proof.
  destruct (step_transcripts r s e) as [H|[H|H]]; auto.
  destruct e; simpl step in *;
    try (left; destruct s;
         unfold startConversation, startConversation_catch,
           toggleStandby, onopen, onerror, onclose, onended;
         destruct r; crunch; fail).
  - left. apply stopConversation_transcripts.
  - right. left. destruct s; reflexivity.
  - cbv zeta. rewrite onmessage_begin_eq.
    destruct (transcription_block_scheduler r m s) as (_ & _ & _ & _ & A & _).
    destruct (audioData_throws r m); [left; reflexivity|].
    destruct (text_throws r m); [left; exact A|].
    rewrite audio_suspend_transcripts, <- A.
    destruct (turnComplete m) eqn:Ht.
    + destruct (turnComplete_block_text m date
                  (after (transcription_block r m s)) Ht)
        as (B & _).
      rewrite B. destruct (forallb is_ws _); [left; reflexivity|].
      right. right. do 4 eexists. split; reflexivity.
    + left. unfold turnComplete_block. rewrite Ht. reflexivity.
  - destruct (nth_error (awaiting s) i); [|left; reflexivity].
    unfold onmessage_resume.
    rewrite interrupted_block_transcripts. left. destruct s; reflexivity.
  - destruct (nth_error (timers s) i) as [[d cb]|]; [|left; reflexivity].
    left. destruct cb; simpl run_timer.
    + rewrite stopConversation_transcripts. destruct s; reflexivity.
    + destruct s; reflexivity.
    + destruct s; crunch.
Qed.

Lemma run_timestamps r es : forall lo s,
  StronglySorted Z.le (map timestamp (transcripts s)) ->
  Forall (fun t => (t <= lo)%Z) (map timestamp (transcripts s)) ->
  dates_nondecreasing lo es ->
  StronglySorted Z.le (map timestamp (transcripts (run r es s))).
Proof.
  induction es as [|e es IH]; intros lo s H1 H2 Hd; simpl; [exact H1|].
  destruct (step_transcripts_dated r s e)
    as [E|[E|(m & now & date & txt & -> & E)]].
  - assert (Hd' : exists lo', (lo <= lo')%Z /\ dates_nondecreasing lo' es).
    { destruct e; simpl in Hd;
        try (exists lo; split; [lia | exact Hd]).
      exists date. exact Hd. }
    destruct Hd' as (lo' & Hlo & Hd').
    apply (IH lo'); rewrite ?E; auto.
    eapply Forall_impl; [|exact H2]. simpl. intros t Ht. lia.
  - assert (Hd' : exists lo', dates_nondecreasing lo' es).
    { destruct e; simpl in Hd; try (exists lo; exact Hd).
      exists date. apply Hd. }
    destruct Hd' as (lo' & Hd').
    apply (IH lo'); rewrite ?E; auto; constructor.
  - simpl in Hd. destruct Hd as [Hlo Hd].
    apply (IH date); rewrite ?E, ?map_app; auto.
    + apply sorted_snoc; [exact H1|].
      eapply Forall_impl; [|exact H2]. simpl. intros t Ht. lia.
    + apply Forall_app. split.
      * eapply Forall_impl; [|exact H2]. simpl. intros t Ht. lia.
      * repeat constructor. simpl. lia.
Qed.

(** X12.  When the readings of [Date.now()] never go back along the
    messages of a run, the timestamps of the transcript never go back
    either, and the keys of the entries the transcript view renders are
    pairwise distinct. *)
Theorem transcript_timestamps_nondecreasing r es lo :
  dates_nondecreasing lo es ->
  StronglySorted Z.le (map timestamp (transcripts (run r es initial))) /\
  NoDup (transcript_keys (transcripts (run r es initial))).
Proof.
  intros Hd.
  assert (H : StronglySorted Z.le
                (map timestamp (transcripts (run r es initial)))).
  { apply (run_timestamps r es lo); [constructor | constructor | exact Hd]. }
  split; [exact H|].
  apply increasing_NoDup, keys_from_increasing, translations_sorted, H.
Qed.

(** *** Fragments and tags *)

Lemma includes_eq (l p : jsstring) :
  includes l p =
  startsWith p l || match l with [] => false | _ :: l' => includes l' p end.
Proof. destruct l; reflexivity. Qed.

Lemma startsWith_app (p post : jsstring) : startsWith p (p ++ post) = true.
Proof.
  induction p as [|x p IH]; simpl; [reflexivity|].
  rewrite N.eqb_refl. exact IH.
Qed.

Lemma includes_app (pre p post : jsstring) :
  includes (pre ++ p ++ post) p = true.
Proof.
  induction pre as [|c pre IH].
  - rewrite includes_eq. simpl app. rewrite startsWith_app. reflexivity.
  - change ((c :: pre) ++ p ++ post) with (c :: (pre ++ p ++ post)).
    rewrite includes_eq. cbv iota. rewrite IH. apply orb_true_r.
Qed.

Lemma onmessage_output_message r f now date s :
  onmessage r (output_message f) now date s
  = Returned (after (transcription_block r (output_message f) s)).
Proof. rewrite onmessage_eq. destruct r; reflexivity. Qed.

Lemma transcription_block_output r f s :
  let s' := after (transcription_block r (output_message f) s) in
  currentOutputTranscription s' = currentOutputTranscription s ++ visible_text f /\
  mood s' = mood_after (mood s) f.
Proof.
  unfold visible_text, mood_after. destruct s.
  unfold transcription_block, output_fragment.
  simpl outputTranscription. cbv iota.
  destruct r; [destruct f as [|c f]|]; store_cbv;
    rewrite ?app_nil_r; try (split; reflexivity);
    destruct (moodMatch _); split; reflexivity.
Qed.

Lemma onmessages_output r fs : forall s,
  let s1 := onmessages r (output_messages fs) s in
  currentOutputTranscription s1 =
    currentOutputTranscription s
    ++ List.concat (map (fun x => visible_text (fst (fst x))) fs) /\
  mood s1 = fold_left mood_after (map (fun x => fst (fst x)) fs) (mood s) /\
  transcripts s1 = transcripts s.
Proof.
  induction fs as [|[[f now] date] fs IH]; intros s.
  - simpl. rewrite app_nil_r. auto.
  - destruct (IH (after (transcription_block r (output_message f) s)))
      as (E1 & E2 & E3).
    destruct (transcription_block_output r f s) as (A1 & A2).
    destruct (transcription_block_scheduler r (output_message f) s)
      as (_ & _ & _ & _ & A3 & _).
    change (onmessages r (output_messages ((f, now, date) :: fs)) s)
      with (onmessages r (output_messages fs)
              (after (onmessage r (output_message f) now date s))).
    rewrite onmessage_output_message.
    change (after (Returned
                     (after (transcription_block r (output_message f) s))))
      with (after (transcription_block r (output_message f) s)).
    cbv zeta. cbn [map List.concat fst snd fold_left].
    rewrite E1, E2, E3, A1, A2, A3, app_assoc. auto.
Qed.

(** X14.  Over a turn of output fragments, each in a message of its own:
    the accumulator grows by every fragment in order, a fragment with a tag
    without that tag and trimmed, the others as they are; the mood is that of
    the last fragment that has a tag; the transcript is not touched until the
    turn completes, and then gains the trimmed accumulator as one entry,
    unless it is all white space. *)
Theorem fragments_accumulate r fs now date s :
  let s1 := onmessages r (output_messages fs) s in
  let acc := currentOutputTranscription s
             ++ List.concat (map (fun x => visible_text (fst (fst x))) fs) in
  let s2 := after (onmessage r turnComplete_message now date s1) in
  currentOutputTranscription s1 = acc /\
  mood s1 = fold_left mood_after (map (fun x => fst (fst x)) fs) (mood s) /\
  transcripts s1 = transcripts s /\
  transcripts s2 =
    (if forallb is_ws acc then transcripts s
     else transcripts s ++
          [{| role := model; text := trim acc; timestamp := date |}]).
Proof.
  intros s1 acc s2.
  destruct (onmessages_output r fs s) as (E1 & E2 & E3).
  fold s1 in E1, E2, E3. fold acc in E1.
  repeat split; auto.
  subst s2. rewrite onmessage_eq.
  assert (K1 : audioData_throws r turnComplete_message = false)
    by (destruct r; reflexivity).
  assert (K2 : text_throws r turnComplete_message = false)
    by (destruct r; reflexivity).
  rewrite K1, K2.
  destruct (audio_then_interrupted_text r turnComplete_message now
              (turnComplete_block turnComplete_message date
                 (after (transcription_block r turnComplete_message s1))))
    as (C1 & _).
  rewrite C1.
  change (after (transcription_block r turnComplete_message s1)) with s1.
  destruct (turnComplete_block_text turnComplete_message date s1 eq_refl)
    as (B & _).
  rewrite B, E1, E3. reflexivity.
Qed.

(** *** The wake words *)

(** X15.  A transcript that wakes [App.tsx] wakes [part_000]; in both, a
    transcript whose lower-cased text has "translate" anywhere in it is a
    match; a result without a match leaves the component alone, and a match
    (with the API key set) sets [CONNECTING] and starts a session whose
    callbacks see the state of the render in which standby was enabled. *)
Theorem wake_words transcript :
  (wake_match AppTsx transcript = true ->
   wake_match Part000 transcript = true) /\
  (forall r pre post,
     toLowerCase transcript = pre ++ js "translate" ++ post ->
     wake_match r transcript = true) /\
  (forall r apiKey s,
     wake_match r transcript = false -> onresult r transcript apiKey s = s) /\
  (forall r s,
     wake_match r transcript = true ->
     state (onresult r transcript true s) = CONNECTING /\
     closureState (onresult r transcript true s) = standbyClosureState s).
Proof.
  unfold wake_match. cbv zeta. repeat split.
  - intros H. apply existsb_exists in H as (w & Hw & Hi).
    apply existsb_exists. exists w. split; [|exact Hi].
    simpl in Hw. simpl. tauto.
  - intros r pre post E. apply existsb_exists. exists (js "translate").
    split; [destruct r; simpl; tauto|]. rewrite E. apply includes_app.
  - intros r apiKey s H. unfold onresult, wake_match. cbv zeta.
    rewrite H. reflexivity.
  - unfold onresult, wake_match. cbv zeta. rewrite H.
    destruct s, r; reflexivity.
  - unfold onresult, wake_match. cbv zeta. rewrite H.
    destruct s, r; reflexivity.
Qed.

End Component.

(* ===================================================================== *)
(** ** The codec                                                          *)
(* ===================================================================== *)

Open Scope Z_scope.

Lemma clamp16_range i : -32768 <= clamp16 i <= 32767.
Proof. unfold clamp16. lia. Qed.

Lemma bytes_roundtrip i : -32768 <= i <= 32767 ->
  int16_of_bytes (i mod 256) ((i / 256) mod 256) = i.
Proof.
  intros H. unfold int16_of_bytes. cbv zeta.
  destruct (Z.ltb_spec (i mod 256 + 256 * ((i / 256) mod 256)) 32768);
  Z.to_euclidean_division_equations; lia.
Qed.

Lemma truncate_close (y : Q) :
  (-32768 <= y <= 32768)%Q ->
  (-1 <= inject_Z (clamp16 (truncate y)) - y <= 1)%Q.
Proof.
  destruct y as [n d].
  unfold Qle, truncate, clamp16, Qminus, Qplus, Qopp, inject_Z.
  cbn [Qnum Qden].
  intros [H1 H2].
  pose proof (Z.quot_rem' n (Z.pos d)) as E.
  assert (Hd : 0 < Z.pos d) by lia.
  pose proof (Z.rem_bound_abs n (Z.pos d) ltac:(lia)) as B.
  pose proof (Z.rem_sign_nz n (Z.pos d)) as Sg.
  rewrite ?Pos2Z.inj_mul in *. rewrite ?Z.mul_1_r in *.
  set (q := n ÷ Z.pos d) in *. set (r := Z.rem n (Z.pos d)) in *.
  set (D := Z.pos d) in *.
  assert (Hq : -32768 <= q <= 32768) by nia.
  destruct (Z.eq_dec q 32768) as [Eq|Nq].
  - assert (r = 0) by nia. subst r. rewrite Eq in *.
    simpl Z.min. simpl Z.max. nia.
  - replace (Z.max (-32768) (Z.min 32767 q)) with q by lia. nia.
Qed.

Lemma truncate_saturates (y : Q) :
  ((32768 <= y)%Q -> clamp16 (truncate y) = 32767) /\
  ((y <= -32768)%Q -> clamp16 (truncate y) = -32768).
Proof.
  destruct y as [n d]. unfold Qle, truncate, clamp16. cbn [Qnum Qden].
  pose proof (Z.quot_rem' n (Z.pos d)) as E.
  assert (Hd : 0 < Z.pos d) by lia.
  pose proof (Z.rem_bound_abs n (Z.pos d) ltac:(lia)) as B.
  rewrite ?Z.mul_1_r.
  set (q := n ÷ Z.pos d) in *. set (r := Z.rem n (Z.pos d)) in *.
  set (D := Z.pos d) in *.
  split; intros H.
  - assert (32768 <= q) by nia. lia.
  - assert (q <= -32768) by nia. lia.
Qed.

Lemma sample_roundtrip (x : Q) :
  (-1 <= x <= 1)%Q ->
  (Qabs (decode_sample (encode_sample x mod 256)
           ((encode_sample x / 256) mod 256) - x) <= 1 # 32768)%Q.
Proof.
  intros Hx.
  unfold decode_sample, encode_sample.
  assert (Hy : (-32768 <= x * 32768 <= 32768)%Q) by lra.
  pose proof (truncate_close _ Hy) as Hc.
  rewrite bytes_roundtrip by apply clamp16_range.
  apply Qabs_Qle_condition.
  set (i := inject_Z (clamp16 (truncate (x * 32768)%Q))) in *.
  clearbody i. unfold Qdiv. change (/ 32768)%Q with (1 # 32768)%Q. lra.
Qed.

(** C6.  Every sample of a frame in [-1, 1] comes back from encoding and
    decoding within one quantization step, 1/32768, of itself; the integer
    of any sample lies in the 16-bit range, and a sample at or beyond 1 or
    -1 is encoded as the nearest end of that range. *)
Theorem C6_codec_roundtrip :
  (forall samples,
     Forall (fun x => (-1 <= x <= 1)%Q) samples ->
     Forall2 (fun x y => (Qabs (y - x) <= 1 # 32768)%Q)
       samples (decode (encode samples))) /\
  (forall x, -32768 <= encode_sample x <= 32767) /\
  (forall x, (1 <= x)%Q -> encode_sample x = 32767) /\
  (forall x, (x <= -1)%Q -> encode_sample x = -32768).
Proof.
  split; [|split; [|split]].
  - induction 1 as [|x samples Hx _ IH]; [constructor|].
    unfold encode. simpl flat_map. simpl decode.
    constructor; [|exact IH].
    apply sample_roundtrip. exact Hx.
  - intros x. apply clamp16_range.
  - intros x Hx. apply truncate_saturates. lra.
  - intros x Hx. apply truncate_saturates. lra.
Qed.

(** C6 on a frame of five samples, with the bytes it encodes to, and on two
    samples outside [-1, 1]. *)
Lemma C6_codec_roundtrip_witness :
  let samples := [1 # 2; -1; 1; 1 # 3; 0]%Q in
  Forall (fun x => (-1 <= x <= 1)%Q) samples /\
  encode samples = [0; 64; 0; 128; 255; 127; 170; 42; 0; 0] /\
  Forall2 (fun x y => (Qabs (y - x) <= 1 # 32768)%Q)
    samples (decode (encode samples)) /\
  encode_sample (3 # 2) = 32767 /\
  encode_sample (-2) = -32768.
Proof.
  intros samples.
  assert (H : Forall (fun x => (-1 <= x <= 1)%Q) samples)
    by (repeat constructor; discriminate).
  destruct C6_codec_roundtrip as (R & _ & Hi & Lo).
  split; [exact H|]. split; [reflexivity|]. split; [exact (R samples H)|].
  split; [apply Hi; discriminate | apply Lo; discriminate].
Defined.

(* ===================================================================== *)
(** ** The component on concrete runs                                     *)
(* ===================================================================== *)

(** C1 as stated fails: two chunks of durations 5 and 7 are handled at
    clock 0 and 3, the second while the first is still with the decoder.
    The handler of the first took [max(0, 0) = 0], but its source starts at
    3, where the handler of the second has moved the cursor meanwhile; the
    second starts at 8 and the cursor ends at 15, where the scheduler of the
    specification starts them at 0 and 5 and ends at 12. *)
Lemma C1_counterexample :
  let s r := run ascii_toLowerCase quiet r
               [ClickStart true; SessionReady; Open] initial in
  let es := [Message (audio_message 5) 0 100; Message (audio_message 7) 3 101;
             Decoded 0; Decoded 0] in
  let s' r := run ascii_toLowerCase quiet r es (s r) in
  (forall r, nextStartTimeRef (s r) = 0) /\
  (forall r,
     nextStartTimeRef
       (after (step ascii_toLowerCase quiet r (s r)
                 (Message (audio_message 5) 0 100)))
     = tmax (nextStartTimeRef (s r)) 0) /\
  tmax (T:=Z) 0 0 = 0 /\
  (forall r, map start_and_duration (startCalls (s' r)) = [(3, 5); (8, 7)]) /\
  (forall r, nextStartTimeRef (s' r) = 15) /\
  spec_schedule (T:=Z) 0 [(0, 5); (3, 7)] = [(0, 5); (5, 7)] /\
  spec_cursor (T:=Z) 0 [(0, 5); (3, 7)] = 12.
Proof.
  repeat split; try (destruct r; vm_compute; reflexivity).
Qed.

(** C1 on runs.  Complete calls: three chunks of durations 5, 7 and 2
    handled at clock 0, 3 and 11, with a text message between the first two,
    start at 0, 5 and 12 and leave the cursor at 14.  The two halves of a
    handler: a chunk handled at clock 3 raises the cursor from 0 to 3, and
    its source starts at 3 and moves the cursor to 8.  Overlapping handlers:
    chunks of durations 5 and 7 handled at clock 0 and 3 before either
    source is started, then, after the first source has ended, one of
    duration 2 handled at clock 11, start at 3, 8 and 15. *)
Lemma C1_scheduler_witness :
  let s := run ascii_toLowerCase quiet AppTsx
             [ClickStart true; SessionReady; Open] initial in
  let ms := [(audio_message 5, 0, 100);
             (output_message (js "[HAPPY] Kumusta"), 1, 101);
             (audio_message 7, 3, 102);
             (audio_message 2, 11, 103)] in
  let s1 := after (step ascii_toLowerCase quiet AppTsx s
                     (Message (audio_message 5) 3 100)) in
  let s2 := after (step ascii_toLowerCase quiet AppTsx s1 (Decoded 0)) in
  let first := {| sid := 0; scheduledStart := 3; duration := 5 |} in
  let es := [Message (audio_message 5) 0 100; Message (audio_message 7) 3 101;
             Decoded 0; Decoded 0; Ended first;
             Message (audio_message 2) 11 102; Decoded 0] in
  let s3 := run ascii_toLowerCase quiet AppTsx es s in
  outputAudioContextRef s = true /\
  (map start_and_duration
     (sourcesRef (onmessages ascii_toLowerCase quiet AppTsx ms s))
     = [(0, 5); (5, 7); (12, 2)] /\
   nextStartTimeRef (onmessages ascii_toLowerCase quiet AppTsx ms s) = 14 /\
   nondecreasing
     (sourcesRef (onmessages ascii_toLowerCase quiet AppTsx ms s)) /\
   gapless (sourcesRef (onmessages ascii_toLowerCase quiet AppTsx ms s))) /\
  (nextStartTimeRef s1 = 3 /\ startCalls s1 = [] /\
   map start_and_duration (startCalls s2) = [(3, 5)] /\
   nextStartTimeRef s2 = 8) /\
  (uninterrupted ascii_toLowerCase quiet AppTsx s es /\
   timely_run ascii_toLowerCase quiet AppTsx false s es /\
   map start_and_duration (startCalls s3) = [(3, 5); (8, 7); (15, 2)] /\
   map sid (sourcesRef s3) = [1; 2]%nat /\
   no_overlap (startCalls s3) /\
   nondecreasing (startCalls s3) /\
   gapless (startCalls s3)).
Proof.
  intros s ms s1 s2 first es s3.
  assert (Hctx : outputAudioContextRef s = true) by reflexivity.
  destruct (C1_scheduler ascii_toLowerCase quiet AppTsx s)
    as (A & B & _ & D).
  destruct (C1_scheduler ascii_toLowerCase quiet AppTsx s1)
    as (_ & _ & C & _).
  split; [exact Hctx|]. split; [|split].
  - assert (Hall : Forall (fun x : ServerMessage * Z * Z =>
                             interrupted (fst (fst x)) = false) ms)
      by (repeat constructor).
    destruct (A Hctx ms Hall) as (news & E1 & E2 & E3 & E4 & E5).
    change (sourcesRef s) with (@nil (Source (T:=Z))) in E1.
    simpl app in E1. rewrite E1.
    split; [exact E2|]. split; [exact E3|]. split.
    + apply E4. repeat constructor; simpl; lia.
    + apply E5. simpl. repeat split; lia.
  - destruct (B Hctx (audio_message 5) 3 100 5 eq_refl eq_refl)
      as (B1 & B2 & _).
    destruct (C 0%nat {| buffer_duration := 5; message_interrupted := false |}
                eq_refl eq_refl) as (C1 & C2).
    split; [exact B1|]. split; [exact B2|].
    split; [unfold s2; rewrite C1; reflexivity | exact C2].
  - assert (Hun : uninterrupted ascii_toLowerCase quiet AppTsx s es)
      by (vm_compute; repeat split).
    assert (Ht : timely_run ascii_toLowerCase quiet AppTsx false s es).
    { simpl. repeat split; intros; try discriminate; exact I. }
    destruct (D es Hun) as (news & E1 & E2 & E3 & E4).
    assert (Hv : map start_and_duration (startCalls s3)
                 = [(3, 5); (8, 7); (15, 2)])
      by (vm_compute; reflexivity).
    assert (Hd : Forall (fun src => tle tzero (duration src))
                   (startCalls s3))
      by (vm_compute; repeat (apply Forall_cons; [discriminate|]);
          apply Forall_nil).
    change (startCalls s) with (@nil (Source (T:=Z))) in E1.
    simpl app in E1. fold s3 in E1. rewrite E1 in Hv, Hd |- *.
    split; [exact Hun|]. split; [exact Ht|]. split; [exact Hv|].
    split; [vm_compute; reflexivity|]. split; [exact E2|].
    split; [exact (E3 Hd) | exact (E4 Ht)].
Defined.

(** C2 as stated fails: after a chunk of duration 5 scheduled at clock 3 the
    cursor is 8, and an interruption handled at clock 4 sets it to 0, which
    is neither the reading of the clock nor at least 8. *)
Lemma C2_counterexample :
  let s := run ascii_toLowerCase quiet Part000
             [ClickStart true; SessionReady; Open;
              Message (audio_message 5) 3 100; Decoded 0] initial in
  let s' := after (step ascii_toLowerCase quiet Part000 s
                     (Message interrupted_message 4 101)) in
  nextStartTimeRef s = 8 /\
  nextStartTimeRef s' = 0 /\
  nextStartTimeRef s' <> 4 /\
  ~ tle (nextStartTimeRef s) (nextStartTimeRef s').
Proof.
  intros s s'. repeat split; try reflexivity.
  - discriminate.
  - vm_compute. intros H. apply H. reflexivity.
Qed.

(** C2 on a run: the resumption of a handler with a chunk of duration 5
    moves the cursor from 3 to 8, and an interruption handled at clock 4
    then sets it to 0. *)
Lemma C2_cursor_monotone_witness :
  let s := run ascii_toLowerCase quiet Part000
             [ClickStart true; SessionReady; Open;
              Message (audio_message 5) 3 100] initial in
  let s' := after (step ascii_toLowerCase quiet Part000 s (Decoded 0)) in
  let e := Message interrupted_message 4 101 in
  let s'' := after (step ascii_toLowerCase quiet Part000 s' e) in
  durations_ok s /\ event_ok (T:=Z) (Decoded 0) /\
  durations_ok s' /\
  nextStartTimeRef s = 3 /\ nextStartTimeRef s' = 8 /\
  event_ok e /\ interrupting s' e = true /\
  returns (step ascii_toLowerCase quiet Part000 s' e) = true /\
  nextStartTimeRef s'' = 0.
Proof.
  intros s s' e s''.
  assert (Hs : durations_ok s) by (repeat constructor; simpl; lia).
  assert (He : event_ok (T:=Z) (Decoded 0)) by exact I.
  destruct (C2_cursor_monotone ascii_toLowerCase quiet Part000 s (Decoded 0)
              Hs He) as (H1 & _ & _).
  assert (He' : event_ok e) by exact I.
  assert (Hi : interrupting s' e = true) by reflexivity.
  assert (Hr : returns (step ascii_toLowerCase quiet Part000 s' e) = true)
    by reflexivity.
  destruct (C2_cursor_monotone ascii_toLowerCase quiet Part000 s' e H1 He')
    as (_ & _ & H3 & _).
  split; [exact Hs|]. split; [exact He|]. split; [exact H1|].
  split; [reflexivity|]. split; [reflexivity|]. split; [exact He'|].
  split; [exact Hi|]. split; [exact Hr|]. exact (H3 Hi Hr).
Defined.

(** C3.  A session that has received "[HAPPY] Kumusta" and is playing one
    chunk is interrupted.  In [App.tsx] the source is stopped, the live set
    emptied, the cursor set to 0 and the state to [LISTENING], and the mood
    is still [HAPPY]; in [part_000] the same events leave it [NEUTRAL]. *)
Theorem C3_interruption_keeps_mood_in_AppTsx :
  let before r :=
    run ascii_toLowerCase quiet r
      [ClickStart true; SessionReady; Open;
       Message (output_message (js "[HAPPY] Kumusta")) 0 100;
       Message (audio_message 5) 1 101; Decoded 0] initial in
  let interruption r :=
    step ascii_toLowerCase quiet r (before r)
      (Message interrupted_message 2 102) in
  mood (before AppTsx) = HAPPY /\
  map sid (sourcesRef (before AppTsx)) = [0%nat] /\
  returns (interruption AppTsx) = true /\
  stopCalls (after (interruption AppTsx)) = [0%nat] /\
  sourcesRef (after (interruption AppTsx)) = [] /\
  nextStartTimeRef (after (interruption AppTsx)) = 0 /\
  state (after (interruption AppTsx)) = LISTENING /\
  mood (after (interruption AppTsx)) = HAPPY /\
  mood (before Part000) = HAPPY /\
  mood (after (interruption Part000)) = NEUTRAL.
Proof. repeat split. Qed.

(** C4.  A session has accumulated the input text "hello" and the output
    text "Kumusta", and the turn completes.  When the turn-complete message
    has a [modelTurn] without [parts], or a transcription without [text],
    [App.tsx] appends the entry "Kumusta" and empties both accumulators;
    [part_000] throws before it reaches the branch on [turnComplete]: no
    entry is appended and the accumulators are not emptied (and, for an
    input transcription without text, the input accumulator has gained the
    text "undefined"). *)
Theorem C4_Part000_throws_before_turnComplete :
  let before r :=
    run ascii_toLowerCase quiet r
      [ClickStart true; SessionReady; Open;
       Message (input_message (js "hello")) 0 100;
       Message (output_message (js "Kumusta")) 1 101] initial in
  let input_without_text : ServerMessage (T:=Z) :=
    {| outputTranscription := None; inputTranscription := Some None;
       turnComplete := true; modelTurn := None; interrupted := false |} in
  let handled r m :=
    step ascii_toLowerCase quiet r (before r) (Message m 2 102) in
  let entry :=
    {| role := model; text := js "Kumusta"; timestamp := 102 |} in
  (forall r, transcripts (before r) = [] /\
             currentInputTranscription (before r) = js "hello" /\
             currentOutputTranscription (before r) = js "Kumusta") /\
  (forall m,
     In m [turnComplete_without_parts; turnComplete_without_text;
           input_without_text] ->
     turnComplete m = true /\
     returns (handled AppTsx m) = true /\
     transcripts (after (handled AppTsx m)) = [entry] /\
     currentInputTranscription (after (handled AppTsx m)) = [] /\
     currentOutputTranscription (after (handled AppTsx m)) = [] /\
     returns (handled Part000 m) = false /\
     transcripts (after (handled Part000 m)) = [] /\
     currentOutputTranscription (after (handled Part000 m)) = js "Kumusta") /\
  currentInputTranscription (after (handled Part000 turnComplete_without_parts))
    = js "hello" /\
  currentInputTranscription (after (handled Part000 turnComplete_without_text))
    = js "hello" /\
  currentInputTranscription (after (handled Part000 input_without_text))
    = js "helloundefined".
Proof.
  split; [intros r; destruct r; repeat split|].
  split; [|repeat split].
  intros m [<-|[<-|[<-|[]]]]; repeat split.
Qed.

(** C5 as stated fails: for "[HAPPY] Kumusta" what is appended is
    "Kumusta", not the text around the tag, " Kumusta". *)
Lemma C5_counterexample :
  let fragment := js "[HAPPY] Kumusta" in
  let s r := after (transcription_block (T:=Z) ascii_toLowerCase r
                      (output_message fragment) initial) in
  fragment = mood_tag HAPPY ++ js " Kumusta" /\
  moodMatch fragment = Some HAPPY /\
  (forall r, currentOutputTranscription (s r) = js "Kumusta") /\
  (forall r, currentOutputTranscription (s r)
             <> currentOutputTranscription (initial (T:=Z)) ++ js " Kumusta").
Proof.
  repeat split; try (destruct r; reflexivity); destruct r; discriminate.
Qed.

(** C5 on a fragment with two tags: the mood is that of the first, only the
    first is removed, and the second stays in the text. *)
Lemma C5_mood_tag_witness :
  let fragment := js "Ay! [SURPRISED] Talaga? [SAD]" in
  let s' := after (transcription_block (T:=Z) ascii_toLowerCase AppTsx
                     (output_message fragment) initial) in
  mood s' = SURPRISED /\
  currentOutputTranscription s' = js "Ay!  Talaga? [SAD]".
Proof.
  intros fragment s'.
  destruct (C5_mood_tag ascii_toLowerCase AppTsx (output_message fragment)
              fragment (initial (T:=Z)) eq_refl) as [H _].
  destruct (H SURPRISED eq_refl) as (pre & post & _ & _ & Hm & _).
  split; [exact Hm | reflexivity].
Defined.

(** C7 as stated fails: a message that carries output transcription as well
    as the input fragment "Thank you Salin" takes the first branch; no timer
    is left and the fragment is not accumulated. *)
Lemma C7_counterexample :
  let fragment := js "Thank you Salin" in
  let m : ServerMessage (T:=Z) :=
    {| outputTranscription := Some (Some (js "[HAPPY] Walang anuman!"));
       inputTranscription := Some (Some fragment);
       turnComplete := false; modelTurn := None; interrupted := false |} in
  let s := run ascii_toLowerCase quiet Part000
             [ClickStart true; SessionReady; Open] initial in
  includes (ascii_toLowerCase fragment) (js "thank you salin") = true /\
  timers (after (step ascii_toLowerCase quiet Part000 s (Message m 0 100)))
    = [] /\
  currentInputTranscription
    (after (step ascii_toLowerCase quiet Part000 s (Message m 0 100))) = [].
Proof. repeat split. Qed.

(** C7 on a run: "Thank you Salin!" leaves the 3000 ms timer; it fires with
    an empty live set and the state is [SLEEP]; the 5000 ms timer fires and
    the state is [IDLE], the mood [NEUTRAL]. *)
Lemma C7_forced_sleep_witness :
  let fragment := js "Thank you Salin!" in
  let s := run ascii_toLowerCase quiet Part000
             [ClickStart true; SessionReady; Open] initial in
  let s1 := after (step ascii_toLowerCase quiet Part000 s
                     (Message (input_message fragment) 0 100)) in
  let s3 := after (step ascii_toLowerCase quiet Part000 s1 (TimerFires 0)) in
  let s5 := after (step ascii_toLowerCase quiet Part000 s3 (TimerFires 0)) in
  In (3000, ForcedSleepStop) (timers s1) /\
  state s3 = SLEEP /\ In (5000, WakeToIdle) (timers s3) /\
  state s5 = IDLE /\ mood s5 = NEUTRAL.
Proof.
  intros fragment s s1 s3 s5.
  destruct (C7_forced_sleep ascii_toLowerCase quiet
              (input_message fragment) fragment 0 100 s eq_refl eq_refl
              eq_refl (or_introl eq_refl)) as (H1 & H2 & H3).
  destruct (H2 s1 0%nat eq_refl (Forall_nil _)) as [H2a H2b].
  destruct (H3 s3 0%nat eq_refl) as [H3a H3b].
  repeat split; assumption.
Defined.

(** C8.  In [part_000], a session started from [IDLE] is put to sleep by the
    farewell phrase; the close handler, whose [state] is that of the render
    the session was started from, then sets [IDLE] although the state is
    [SLEEP].  A session started during the sleep reaches [LISTENING], and its
    close handler leaves [LISTENING] although the state is not [SLEEP]. *)
Theorem C8_onclose_reads_stale_state :
  let asleep :=
    run ascii_toLowerCase quiet Part000
      [ClickStart true; SessionReady; Open;
       Message (input_message (js "Thank you Salin")) 0 100;
       TimerFires 0] initial in
  let restarted :=
    run ascii_toLowerCase quiet Part000
      [ClickStart true; SessionReady; Open;
       Message (input_message (js "kumusta")) 1 200] asleep in
  state asleep = SLEEP /\
  state (after (step ascii_toLowerCase quiet Part000 asleep Close)) = IDLE /\
  state restarted = LISTENING /\
  state (after (step ascii_toLowerCase quiet Part000 restarted Close))
    = LISTENING.
Proof. repeat split. Qed.

(** C9.  The live set holds one node on which [stop()] raises.  In
    [part_000] the stop button and the interruption both let the exception
    escape: the set is not cleared and the state stays [SPEAKING].  In
    [App.tsx] both return with the set empty. *)
Theorem C9_stop_raises_in_Part000 :
  let playing r :=
    run ascii_toLowerCase (raises_on 0) r
      [ClickStart true; SessionReady; Open;
       Message (audio_message 5) 0 100; Decoded 0] initial in
  let stop r := step ascii_toLowerCase (raises_on 0) r (playing r) ClickStop in
  let interruption r :=
    step ascii_toLowerCase (raises_on 0) r (playing r)
      (Message interrupted_message 1 101) in
  map sid (sourcesRef (playing Part000)) = [0%nat] /\
  returns (stop Part000) = false /\
  state (after (stop Part000)) = SPEAKING /\
  map sid (sourcesRef (after (stop Part000))) = [0%nat] /\
  returns (interruption Part000) = false /\
  map sid (sourcesRef (after (interruption Part000))) = [0%nat] /\
  returns (stop AppTsx) = true /\
  state (after (stop AppTsx)) = IDLE /\
  sourcesRef (after (stop AppTsx)) = [] /\
  returns (interruption AppTsx) = true /\
  sourcesRef (after (interruption AppTsx)) = [].
Proof. repeat split. Qed.

(* ===================================================================== *)
(** ** The orb                                                            *)
(* ===================================================================== *)

(** X16.  [getColors]: in [ERROR], [CONNECTING] and [SLEEP] the colour of
    the orb does not depend on the mood; in every other state each mood has
    a colour of its own, and a mood other than [NEUTRAL] has the same colour
    in all of those states. *)
Theorem orb_colours :
  (forall st m1 m2,
     st = ERROR \/ st = CONNECTING \/ st = SLEEP ->
     getColors st m1 = getColors st m2) /\
  (forall st m1 m2,
     st <> ERROR -> st <> CONNECTING -> st <> SLEEP ->
     getColors st m1 = getColors st m2 -> m1 = m2) /\
  (forall st1 st2 m,
     m <> NEUTRAL ->
     st1 <> ERROR -> st1 <> CONNECTING -> st1 <> SLEEP ->
     st2 <> ERROR -> st2 <> CONNECTING -> st2 <> SLEEP ->
     getColors st1 m = getColors st2 m).
Proof.
  split; [|split].
  - intros st m1 m2 [->|[->| ->]]; reflexivity.
  - intros st m1 m2 H1 H2 H3.
    destruct st; try congruence; destruct m1, m2; simpl;
      intros H; try reflexivity; discriminate H.
  - intros st1 st2 m Hm A1 A2 A3 B1 B2 B3.
    destruct m; try congruence;
      destruct st1; try congruence; destruct st2; try congruence;
      reflexivity.
Qed.

(** X17.  [renderFace]: in [SLEEP] the brows, the mouth and the pupil size
    are the same for every mood and the pupils are not drawn; the blush is
    shown exactly when the mood is [HAPPY], in every state; in [LISTENING]
    the pupil size is 5.5 for every mood; and outside [SLEEP] each mood has
    a mouth of its own. *)
Theorem orb_face :
  (forall m1 m2 blink,
     browL (renderFace SLEEP m1) = browL (renderFace SLEEP m2) /\
     browR (renderFace SLEEP m1) = browR (renderFace SLEEP m2) /\
     mouthPath (renderFace SLEEP m1) = mouthPath (renderFace SLEEP m2) /\
     pupilSize (renderFace SLEEP m1) = 0%Q /\
     pupils_drawn blink SLEEP = false) /\
  (forall st m, showBlush (renderFace st m) = true <-> m = HAPPY) /\
  (forall m, pupilSize (renderFace LISTENING m) = (11 # 2)%Q) /\
  (forall st m1 m2,
     st <> SLEEP ->
     mouthPath (renderFace st m1) = mouthPath (renderFace st m2) ->
     m1 = m2).
Proof.
  split; [|split; [|split]].
  - intros m1 m2 blink. repeat split. destruct blink; reflexivity.
  - intros st m. destruct st, m; simpl; split; intros H;
      try reflexivity; discriminate H.
  - intros m. reflexivity.
  - intros st m1 m2 Hs.
    destruct st; try congruence; destruct m1, m2; simpl;
      intros H; try reflexivity; discriminate H.
Qed.

(** X16 on the states and moods of a session: asleep after a happy farewell
    the orb has the colour of sleep, and an angry orb has one colour whether
    it listens or speaks. *)
Lemma orb_colours_witness :
  getColors SLEEP HAPPY = getColors SLEEP NEUTRAL /\
  SAD = SAD /\
  getColors LISTENING ANGRY = getColors SPEAKING ANGRY.
Proof.
  destruct orb_colours as (H1 & H2 & H3).
  split; [apply H1; right; right; reflexivity|].
  split; [apply (H2 LISTENING); discriminate || reflexivity|].
  apply H3; discriminate.
Defined.

(** X17 on a happy face: it blushes while speaking. *)
Lemma orb_face_witness :
  showBlush (renderFace SPEAKING HAPPY) = true /\ HAPPY = HAPPY.
Proof.
  destruct orb_face as (_ & H2 & _ & H4).
  split; [apply H2; reflexivity|].
  apply (H4 SPEAKING); discriminate || reflexivity.
Defined.

(* ===================================================================== *)
(** ** Tags                                                               *)
(* ===================================================================== *)

Lemma tag_at_None_all (l : jsstring) :
  tag_at l = None -> forall md, startsWith (mood_tag md) l = false.
Proof.
  unfold tag_at. intros H md. apply (find_none _ _ H md).
  destruct md; simpl; auto 7.
Qed.

(** X13.  The mood expression finds a match in a fragment exactly when the
    fragment contains one of the six bracketed tags as a substring, and the
    mood it yields is that of a tag the fragment contains. *)
Theorem moodMatch_iff_tag (fragment : jsstring) :
  (moodMatch fragment = None <->
   forall md, includes fragment (mood_tag md) = false) /\
  (forall md, moodMatch fragment = Some md ->
   includes fragment (mood_tag md) = true).
Proof.
  induction fragment as [|c l [IH1 IH2]].
  - split; [split|]; try discriminate; reflexivity.
  - rewrite moodMatch_eq.
    destruct (tag_at (c :: l)) as [m0|] eqn:E.
    + pose proof (tag_at_Some _ _ E) as S0.
      split; [split|].
      * discriminate.
      * intros H. specialize (H m0). rewrite includes_eq, S0 in H.
        discriminate.
      * intros md H. injection H as <-. rewrite includes_eq, S0.
        reflexivity.
    + split; [split|].
      * intros H md. rewrite includes_eq, (tag_at_None_all _ E md).
        apply IH1. exact H.
      * intros H. apply IH1. intros md. specialize (H md).
        rewrite includes_eq, (tag_at_None_all _ E md) in H. exact H.
      * intros md H. rewrite includes_eq, (tag_at_None_all _ E md).
        apply IH2. exact H.
Qed.

(* ===================================================================== *)
(** ** The further properties on concrete runs                            *)
(* ===================================================================== *)

(** X1 on a run: [App.tsx] playing one chunk on a device whose [stop()]
    raises is stopped and torn down all the same. *)
Lemma stopConversation_teardown_witness :
  let s := run ascii_toLowerCase (raises_on 0) AppTsx
             [ClickStart true; SessionReady; Open;
              Message (audio_message 5) 0 100; Decoded 0] initial in
  exists s',
    stopConversation (raises_on 0) AppTsx false s = Returned s' /\
    sourcesRef s' = [] /\ stopCalls s' = [0%nat] /\
    state s' = IDLE /\ mood s' = NEUTRAL /\ nextStartTimeRef s' = 5.
Proof.
  intros s.
  destruct (stopConversation_teardown (raises_on 0) AppTsx s
              (or_introl eq_refl))
    as (s' & R & _ & _ & _ & P1 & P2 & P3 & P4 & _ & P5 & _).
  exists s'. repeat split; assumption.
Defined.

(** X2 on a run: a second stop of the same conversation. *)
Lemma stopConversation_idempotent_witness :
  let s := run ascii_toLowerCase quiet Part000
             [ClickStart true; SessionReady; Open;
              Message (audio_message 5) 0 100; Decoded 0] initial in
  let s' := after (stopConversation quiet Part000 false s) in
  stopConversation quiet Part000 false s' = Returned s'.
Proof.
  intros s s'.
  apply (stopConversation_idempotent quiet Part000 s s').
  vm_compute. reflexivity.
Defined.

(** X3 on a run: [part_000] playing two chunks, the first of them on a
    node whose [stop()] raises. *)
Lemma Part000_stop_until_raise_witness :
  let s := run ascii_toLowerCase (raises_on 0) Part000
             [ClickStart true; SessionReady; Open;
              Message (audio_message 5) 0 100; Decoded 0;
              Message (audio_message 7) 1 101; Decoded 0] initial in
  let s' := after (stopConversation (raises_on 0) Part000 false s) in
  map sid (sourcesRef s) = [0%nat; 1%nat] /\
  returns (stopConversation (raises_on 0) Part000 false s) = false /\
  outputAudioContextRef s' = false /\
  stopCalls s' = [0%nat] /\
  map sid (sourcesRef s') = [0%nat; 1%nat] /\
  state s' = SPEAKING.
Proof.
  intros s s'.
  destruct (Part000_stop_until_raise (raises_on 0) false s) as (R & H).
  assert (E : existsb (fun src => raises_on 0 (sid src)) (sourcesRef s)
              = true) by (vm_compute; reflexivity).
  destruct (H E) as (_ & _ & P1 & P2 & P3 & P4 & _).
  split; [vm_compute; reflexivity|]. split; [exact R|]. split; [exact P1|].
  split; [exact P2|].
  split; [unfold s'; rewrite P3; vm_compute; reflexivity | exact P4].
Defined.

(** X4 on a run: a session started during the sleep window, stopped by the
    user, then closed; its close handler saw [SLEEP]. *)
Lemma stop_then_close_witness :
  let s := run ascii_toLowerCase quiet Part000
             [ClickStart true; SessionReady; Open;
              Message (input_message (js "Salamat Salin")) 0 100;
              TimerFires 0; ClickStart true; SessionReady; Open] initial in
  let s' := after (stopConversation quiet Part000 false s) in
  closureState s = SLEEP /\
  state (onclose s') = IDLE /\ mood (onclose s') = NEUTRAL.
Proof.
  intros s s'. split; [vm_compute; reflexivity|].
  apply (stop_then_close quiet Part000 s s'). vm_compute. reflexivity.
Defined.

(** X5 on a run: the second chunk comes late, at clock 9 after the first
    ended at 5, and starts at 9. *)
Lemma scheduler_never_overlaps_witness :
  let s := run ascii_toLowerCase quiet Part000
             [ClickStart true; SessionReady; Open] initial in
  let ms := [(audio_message 5, 0, 100); (audio_message 7, 9, 101)] in
  map start_and_duration
    (sourcesRef (onmessages ascii_toLowerCase quiet Part000 ms s))
    = [(0, 5); (9, 7)] /\
  no_overlap (sourcesRef (onmessages ascii_toLowerCase quiet Part000 ms s)).
Proof.
  intros s ms.
  assert (Hall : Forall (fun x : ServerMessage * Z * Z =>
                           interrupted (fst (fst x)) = false) ms)
    by (repeat constructor).
  destruct (scheduler_never_overlaps ascii_toLowerCase quiet Part000 ms s
              eq_refl Hall) as (news & E1 & E2 & _).
  change (sourcesRef s) with (@nil (Source (T:=Z))) in E1. simpl app in E1.
  split; [vm_compute; reflexivity|]. rewrite E1. exact E2.
Defined.

(** X6 on a run: a session ends with the cursor at 12; the first chunk of
    the next session, handled at clock 1 of the new output context, is
    scheduled at 12. *)
Lemma cursor_survives_restart_witness :
  let s := run ascii_toLowerCase quiet AppTsx
             [ClickStart true; SessionReady; Open;
              Message (audio_message 12) 0 100; Decoded 0] initial in
  let s1 := after (stopConversation quiet AppTsx false s) in
  let s2 := run ascii_toLowerCase quiet AppTsx
              [ClickStart true; SessionReady; Open] s1 in
  let s3 := after (onmessage ascii_toLowerCase quiet AppTsx
                     (audio_message 3) 1 200 s2) in
  nextStartTimeRef s = 12 /\
  map start_and_duration (sourcesRef s3) = [(12, 3)] /\
  nextStartTimeRef s3 = 15.
Proof.
  intros s s1 s2 s3. split; [vm_compute; reflexivity|].
  assert (E : stopConversation quiet AppTsx false s = Returned s1)
    by (vm_compute; reflexivity).
  destruct (cursor_survives_restart ascii_toLowerCase quiet AppTsx s s1
              1 200 3 E) as (_ & H2 & H3).
  split; [exact H2 | exact H3].
Defined.

(** X7 on a run: a chunk of duration 5 is being decoded when the
    interruption arrives. *)
Lemma chunk_in_flight_survives_interruption_witness :
  let s := run ascii_toLowerCase quiet Part000
             [ClickStart true; SessionReady; Open;
              Message (audio_message 4) 0 100; Decoded 0;
              Message (audio_message 5) 1 101] initial in
  let s1 := after (step ascii_toLowerCase quiet Part000 s
                     (Message interrupted_message 2 102)) in
  let s2 := after (step ascii_toLowerCase quiet Part000 s1 (Decoded 0)) in
  map sid (sourcesRef s) = [0%nat] /\
  sourcesRef s1 = [] /\
  map start_and_duration (sourcesRef s2) = [(0, 5)] /\
  state s2 = LISTENING.
Proof.
  intros s s1 s2. split; [vm_compute; reflexivity|].
  assert (Hq : Part000 = AppTsx \/
               Forall (fun src : Source (T:=Z) => quiet (sid src) = false)
                 (sourcesRef s))
    by (right; apply Forall_forall; reflexivity).
  assert (Hk : nth_error (awaiting s) 0
               = Some {| buffer_duration := 5;
                         message_interrupted := false |})
    by (vm_compute; reflexivity).
  destruct (chunk_in_flight_survives_interruption ascii_toLowerCase quiet
              Part000 s 0%nat
              {| buffer_duration := 5; message_interrupted := false |}
              2 102 Hk eq_refl Hq) as (P1 & P2 & _ & P4).
  split; [exact P1|]. split; [exact P2 | exact P4].
Defined.

(** X8 on a run: the only live source of [part_000] ends. *)
Lemma Part000_debounce_witness :
  let s := run ascii_toLowerCase quiet Part000
             [ClickStart true; SessionReady; Open;
              Message (output_message (js "[HAPPY] Kumusta")) 0 100;
              Message (audio_message 4) 0 100; Decoded 0] initial in
  let source := {| sid := 0%nat; scheduledStart := 0; duration := 4 |} in
  let s1 := onended Part000 source s in
  let s2 := after (onmessage ascii_toLowerCase quiet Part000
                     (audio_message 5) 4 101 s1) in
  timers s1 = [(500, ReturnToListening)] /\
  state (after (step ascii_toLowerCase quiet Part000 s2 (TimerFires 0)))
    = SPEAKING /\
  mood (after (step ascii_toLowerCase quiet Part000 s2 (TimerFires 0)))
    = HAPPY /\
  state (after (step ascii_toLowerCase quiet Part000 s1 (TimerFires 0)))
    = LISTENING /\
  mood (after (step ascii_toLowerCase quiet Part000 s1 (TimerFires 0)))
    = NEUTRAL.
Proof.
  intros s source s1 s2.
  assert (E1 : sourcesRef s = [source]) by (vm_compute; reflexivity).
  assert (E2 : timers s = []) by (vm_compute; reflexivity).
  assert (E3 : outputAudioContextRef s = true) by (vm_compute; reflexivity).
  destruct (Part000_debounce ascii_toLowerCase quiet s source E1 E2 E3)
    as (P1 & _ & P3 & _ & P5 & P6).
  destruct (P3 5 4 101) as (Q1 & Q2 & _).
  split; [exact P1|]. split; [exact Q1|]. split; [exact Q2|].
  split; [exact P5 | exact P6].
Defined.

(** X9 on a run: the channel fails, then input transcription arrives; the
    state is [LISTENING] and the message of the failure is still shown. *)
Lemma error_message_kept_witness :
  let s := run ascii_toLowerCase quiet AppTsx
             [ClickStart true; SessionReady; Open; ChannelError] initial in
  let s' := after (step ascii_toLowerCase quiet AppTsx s
                     (Message (input_message (js "kumusta")) 0 100)) in
  state s = ERROR /\ errorMessage s <> None /\
  state s' = LISTENING /\ errorMessage s' <> None.
Proof.
  intros s s'.
  destruct (error_message_kept ascii_toLowerCase quiet AppTsx) as (H1 & H2).
  assert (Hm : errorMessage s <> None)
    by (apply (H1 [ClickStart true; SessionReady; Open; ChannelError]);
        reflexivity).
  split; [reflexivity|]. split; [exact Hm|]. split; [reflexivity|].
  apply H2; [reflexivity | exact Hm].
Defined.

(** X11 on three entries, two of them of the same millisecond. *)
Lemma transcript_keys_distinct_witness :
  let entries :=
    [{| role := model; text := js "Kumusta"; timestamp := 100 |};
     {| role := model; text := js "ka"; timestamp := 100 |};
     {| role := model; text := js "Salamat"; timestamp := 101 |}] in
  transcript_keys entries = [100; 101; 103] /\
  NoDup (transcript_keys entries).
Proof.
  intros entries. split; [reflexivity|].
  apply transcript_keys_distinct.
  repeat constructor; simpl; lia.
Defined.

(** X12 on a run of two turns completed in the same millisecond. *)
Lemma transcript_timestamps_nondecreasing_witness :
  let es := [ClickStart true; SessionReady; Open;
             Message (output_message (js "[HAPPY] Kumusta")) 0 100;
             Message turnComplete_message 0 100;
             Message (output_message (js "Salamat")) 0 100;
             Message turnComplete_message 0 100] in
  let s := run ascii_toLowerCase quiet Part000 es (initial (T:=Z)) in
  map timestamp (transcripts s) = [100; 100] /\
  transcript_keys (transcripts s) = [100; 101] /\
  NoDup (transcript_keys (transcripts s)).
Proof.
  intros es s. split; [reflexivity|]. split; [reflexivity|].
  apply (transcript_timestamps_nondecreasing ascii_toLowerCase quiet
           Part000 es 0).
  simpl. repeat split; lia.
Defined.

(** X13 on a fragment with a tag in the middle, and on one with the two
    halves of a tag it does not hold together. *)
Lemma moodMatch_iff_tag_witness :
  includes (js "Ay [SAD] naku") (mood_tag SAD) = true /\
  (forall md, includes (js "[HAP PY]") (mood_tag md) = false).
Proof.
  split.
  - apply (proj2 (moodMatch_iff_tag (js "Ay [SAD] naku")) SAD). reflexivity.
  - apply (proj1 (proj1 (moodMatch_iff_tag (js "[HAP PY]")))). reflexivity.
Defined.

(** X15 on transcripts: "Kumusta Salin" wakes [part_000] only, and
    "mistranslated" wakes both. *)
Lemma wake_words_witness :
  wake_match ascii_toLowerCase AppTsx (js "Kumusta Salin") = false /\
  wake_match ascii_toLowerCase Part000 (js "Hey Salin!") = true /\
  wake_match ascii_toLowerCase AppTsx (js "Mistranslated") = true /\
  state (onresult ascii_toLowerCase Part000 (js "Hey Salin!") true
           (toggleStandby true (initial (T:=Z)))) = CONNECTING /\
  closureState (onresult ascii_toLowerCase Part000 (js "Hey Salin!") true
                  (toggleStandby true (initial (T:=Z)))) = IDLE.
Proof.
  split; [reflexivity|].
  destruct (wake_words (T:=Z) ascii_toLowerCase (js "Hey Salin!"))
    as (H1 & _ & _ & H4).
  destruct (wake_words (T:=Z) ascii_toLowerCase (js "Mistranslated"))
    as (_ & H2 & _).
  split; [apply H1; reflexivity|].
  split; [apply (H2 AppTsx (js "mis") (js "d")); reflexivity|].
  destruct (H4 Part000 (toggleStandby true initial) eq_refl)
    as (Q1 & Q2).
  split; [exact Q1 | exact Q2].
Defined.

(** X18 on a run: "[HAPPY] Kumusta" then " ka? " then turn-complete leaves
    the one entry "Kumusta ka?" and empty accumulators. *)
Lemma turn_completion_witness :
  let s := run ascii_toLowerCase quiet Part000
             [ClickStart true; SessionReady; Open;
              Message (output_message (js "[HAPPY] Kumusta")) 0 100;
              Message (output_message (js " ka? ")) 1 101] initial in
  let s' := after (onmessage ascii_toLowerCase quiet Part000
                     turnComplete_message 2 102 s) in
  turnComplete (turnComplete_message (T:=Z)) = true /\
  throws_early (T:=Z) Part000 turnComplete_message = false /\
  currentOutputTranscription s = js "Kumusta ka? " /\
  transcripts s' =
    [{| role := model; text := js "Kumusta ka?"; timestamp := 102 |}] /\
  currentInputTranscription s' = [] /\
  currentOutputTranscription s' = [].
Proof.
  intros s s'.
  destruct (turn_completion ascii_toLowerCase quiet Part000
              turnComplete_message 2 102 s eq_refl (or_intror eq_refl))
    as (_ & H2 & H3 & H4).
  split; [reflexivity|]. split; [reflexivity|]. split; [reflexivity|].
  split; [|split; assumption].
  apply H2. reflexivity.
Defined.
